(** * go-fcm: decoding of the FCM server's response (response.go)

    A shallow embedding of [response.go]: the package's error values and
    the [errMap] table, the [Response] and [Result] structs with their
    [UnmarshalJSON] methods, and [Result.Unregistered].  The two methods
    call [encoding/json]; the part of that package they rely on (the
    scanner, string unquoting, and the decoding of a JSON value into an
    integer, a string, a slice and a struct) is modelled in [Module json]. *)

From Stdlib Require Import ZArith NArith Ascii String List Bool Lia.
From stdpp Require Import gmap strings.

Local Open Scope string_scope.

(** ** The [error] interface and the package's error values *)

(** A Go interface value of type [error] is [nil] or a value of some
    dynamic type.  The dynamic types that occur in this package are
    - [*errors.errorString], what [errors.New] returns: a pointer, so
      two of them are equal when they come from the same call of
      [errors.New]; [p] numbers the calls of the [var] block;
    - [connectionError] and [serverError], two string types of this
      package, compared by their text;
    - [*json.SyntaxError] and [*json.UnmarshalTypeError], which
      [json.Unmarshal] returns ([Value] is the description of the JSON
      value that did not fit, as in the Go struct field of that name).
    [nil] is [None] in [option error]. *)
Inductive error : Type :=
| errorString (p : positive) (s : string)
| connectionError (s : string)
| serverError (s : string)
| SyntaxError
| UnmarshalTypeError (Value : string).

#[global] Instance error_eq_dec : EqDecision error.
Proof. solve_decision. Defined.

Definition errors_New (p : positive) (text : string) : error := errorString p text.

Definition ErrMissingRegistration : error := errors_New 1 "MissingRegistration".
Definition ErrInvalidRegistration : error := errors_New 2 "InvalidRegistration".
Definition ErrNotRegistered : error := errors_New 3 "NotRegistered".
Definition ErrInvalidPackageName : error := errors_New 4 "InvalidPackageName".
Definition ErrMismatchSenderID : error := errors_New 5 "MismatchSenderId".
Definition ErrMessageTooBig : error := errors_New 6 "MessageTooBig".
Definition ErrInvalidDataKey : error := errors_New 7 "InvalidDataKey".
Definition ErrInvalidTTL : error := errors_New 8 "InvalidTTL".
Definition ErrUnavailable : error := connectionError "Unavailable".
Definition ErrInternalServerError : error := serverError "InternalServerError".
Definition ErrDeviceMessageRateExceeded : error := errors_New 9 "DeviceMessageRateExceeded".
Definition ErrTopicsMessageRateExceeded : error := errors_New 10 "TopicsMessageRateExceeded".
Definition ErrInvalidParameters : error := errors_New 11 "InvalidParameters".
Definition ErrUnknown : error := errors_New 12 "Unknown".
Definition ErrInvalidApnsCredential : error := errors_New 13 "InvalidApnsCredential".

Definition errMap : gmap string error :=
  list_to_map
    [("MissingRegistration", ErrMissingRegistration);
     ("InvalidRegistration", ErrInvalidRegistration);
     ("NotRegistered", ErrNotRegistered);
     ("InvalidPackageName", ErrInvalidPackageName);
     ("MismatchSenderId", ErrMismatchSenderID);
     ("MessageTooBig", ErrMessageTooBig);
     ("InvalidDataKey", ErrInvalidDataKey);
     ("InvalidTtl", ErrInvalidTTL);
     ("Unavailable", ErrUnavailable);
     ("InternalServerError", ErrInternalServerError);
     ("DeviceMessageRateExceeded", ErrDeviceMessageRateExceeded);
     ("TopicsMessageRateExceeded", ErrTopicsMessageRateExceeded);
     ("InvalidParameters", ErrInvalidParameters);
     ("InvalidApnsCredential", ErrInvalidApnsCredential)].

(** The methods of the error types of the package.  [Error] is the
    text of the value (for the errors of [encoding/json] the message is
    not modelled); [Temporary] and [Timeout] belong to [connectionError]
    and [serverError] only: a value of another dynamic type does not
    have the method at all ([None]), so a caller's assertion to
    [net.Error] fails on it. *)
Definition Error_ (err : error) : option string :=
  match err with
  | errorString _ s => Some s
  | connectionError s => Some s
  | serverError s => Some s
  | _ => None
  end.

Definition Temporary (err : error) : option bool :=
  match err with
  | connectionError _ => Some true
  | serverError _ => Some true
  | _ => None
  end.

Definition Timeout (err : error) : option bool :=
  match err with
  | connectionError _ => Some true
  | serverError _ => Some false
  | _ => None
  end.

(** The lookup that both [UnmarshalJSON] methods perform on a non-empty
    error code (lines 158-162 and 190-194):
    [if val, ok := errMap[code]; ok { val } else { ErrUnknown }]. *)
Definition classify (code : string) : error :=
  match errMap !! code with
  | Some val => val
  | None => ErrUnknown
  end.

(** The keys of [errMap]. *)
Definition knownCodes : list string :=
  ["MissingRegistration"; "InvalidRegistration"; "NotRegistered"; "InvalidPackageName";
   "MismatchSenderId"; "MessageTooBig"; "InvalidDataKey"; "InvalidTtl"; "Unavailable";
   "InternalServerError"; "DeviceMessageRateExceeded"; "TopicsMessageRateExceeded";
   "InvalidParameters"; "InvalidApnsCredential"].

(** ** The part of [encoding/json] that the package uses *)

Module json.

(** *** Bytes *)

(** A Go [[]byte] and a Go [string] are both a [string] here: a
    sequence of bytes. *)
Definition code (c : ascii) : N := N_of_ascii c.
Definition quote : ascii := "034".
Definition backslash : ascii := "092".

Definition between (lo hi : N) (c : ascii) : bool :=
  ((lo <=? code c) && (code c <=? hi))%N.

Definition isSpace (c : ascii) : bool :=
  (c =? " ")%char || (c =? "009")%char || (c =? "013")%char || (c =? "010")%char.

Definition isDigit (c : ascii) : bool := between 48 57 c.

Fixpoint skipSpace (s : string) : string :=
  match s with
  | String c t => if isSpace c then skipSpace t else s
  | EmptyString => s
  end.

Fixpoint drop (n : nat) (s : string) : string :=
  match n, s with
  | S k, String _ t => drop k t
  | _, _ => s
  end.

Definition take (n : nat) (s : string) : string := substring 0 n s.

(** *** String literals *)

(** The scanner's states inside a string literal ([stateInString],
    [stateInStringEsc], [stateInStringEscU] and its three successors,
    counted by the number of hexadecimal digits still expected). *)
Inductive strState : Type :=
| InString
| InStringEsc
| InStringEscU (digits : nat).

Definition isHex (c : ascii) : bool :=
  isDigit c || between 97 102 c || between 65 70 c.

Definition isEscape (c : ascii) : bool :=
  (c =? "b")%char || (c =? "f")%char || (c =? "n")%char || (c =? "r")%char ||
  (c =? "t")%char || (c =? backslash)%char || (c =? "/")%char || (c =? quote)%char.

(** [scanString st s] reads a string literal whose opening quote has
    been consumed and returns the bytes between the quotes and what
    follows the closing quote; [None] is the scanner's error. *)
Fixpoint scanString (st : strState) (s : string) : option (string * string) :=
  match s with
  | EmptyString => None
  | String c t =>
    let keep st' :=
      match scanString st' t with
      | Some (body, rest) => Some (String c body, rest)
      | None => None
      end in
    match st with
    | InString =>
      if (c =? quote)%char then Some (EmptyString, t)
      else if (c =? backslash)%char then keep InStringEsc
      else if (code c <? 32)%N then None
      else keep InString
    | InStringEsc =>
      if isEscape c then keep InString
      else if (c =? "u")%char then keep (InStringEscU 4)
      else None
    | InStringEscU n =>
      if isHex c then keep (match n with S (S k) => InStringEscU (S k) | _ => InString end)
      else None
    end
  end.

(** [getu4]: the rune of a [\uXXXX] escape at the start of [s], or -1. *)
Definition hexval (c : ascii) : option Z :=
  if isDigit c then Some (Z.of_N (code c) - 48)%Z
  else if between 97 102 c then Some (Z.of_N (code c) - 97 + 10)%Z
  else if between 65 70 c then Some (Z.of_N (code c) - 65 + 10)%Z
  else None.

Definition getu4 (s : string) : Z :=
  match s with
  | String b (String u (String h1 (String h2 (String h3 (String h4 _))))) =>
    if (b =? backslash)%char && (u =? "u")%char then
      match hexval h1, hexval h2, hexval h3, hexval h4 with
      | Some a, Some b, Some c, Some d => (((a * 16 + b) * 16 + c) * 16 + d)%Z
      | _, _, _, _ => (-1)%Z
      end
    else (-1)%Z
  | _ => (-1)%Z
  end.

Definition ReplacementChar : Z := 65533.

(** [utf16.IsSurrogate] and [utf16.DecodeRune]. *)
Definition IsSurrogate (r : Z) : bool := ((55296 <=? r) && (r <? 57344))%Z.

Definition utf16_DecodeRune (r1 r2 : Z) : Z :=
  if ((55296 <=? r1) && (r1 <? 56320) && (56320 <=? r2) && (r2 <? 57344))%Z
  then (Z.lor (Z.shiftl (r1 - 55296) 10) (r2 - 56320) + 65536)%Z
  else ReplacementChar.

Definition chr (z : Z) : ascii := ascii_of_N (Z.to_N z).

(** [utf8.EncodeRune]. *)
Definition EncodeRune (r : Z) : string :=
  let cont x := chr (Z.lor 128 (Z.land x 63)) in
  let three x :=
    String (chr (Z.lor 224 (Z.shiftr x 12)))
      (String (cont (Z.shiftr x 6)) (String (cont x) EmptyString)) in
  if (r <? 0)%Z then three ReplacementChar
  else if (r <=? 127)%Z then String (chr r) EmptyString
  else if (r <=? 2047)%Z then
    String (chr (Z.lor 192 (Z.shiftr r 6))) (String (cont r) EmptyString)
  else if (1114111 <? r)%Z || IsSurrogate r then three ReplacementChar
  else if (r <=? 65535)%Z then three r
  else
    String (chr (Z.lor 240 (Z.shiftr r 18)))
      (String (cont (Z.shiftr r 12))
         (String (cont (Z.shiftr r 6)) (String (cont r) EmptyString))).

(** The length of the well-formed UTF-8 sequence that starts with the
    byte [c] (at least 128) followed by [t], as [utf8.DecodeRune] finds
    it; 0 when there is none, where [DecodeRune] returns
    [(RuneError, 1)]. *)
Definition utf8_len (c : ascii) (t : string) : nat :=
  let inr (lo hi : N) (o : option ascii) :=
    match o with Some b => between lo hi b | None => false end in
  let b1 := get 0 t in
  let b2 := get 1 t in
  let b3 := get 2 t in
  let x := code c in
  if between 194 223 c then
    if inr 128%N 191%N b1 then 2%nat else 0%nat
  else if between 224 239 c then
    let lo := if (x =? 224)%N then 160%N else 128%N in
    let hi := if (x =? 237)%N then 159%N else 191%N in
    if inr lo hi b1 && inr 128%N 191%N b2 then 3%nat else 0%nat
  else if between 240 244 c then
    let lo := if (x =? 240)%N then 144%N else 128%N in
    let hi := if (x =? 244)%N then 143%N else 191%N in
    if inr lo hi b1 && inr 128%N 191%N b2 && inr 128%N 191%N b3 then 4%nat else 0%nat
  else 0%nat.

Definition unescape (c : ascii) : ascii :=
  if (c =? "b")%char then "008"%char
  else if (c =? "f")%char then "012"%char
  else if (c =? "n")%char then "010"%char
  else if (c =? "r")%char then "013"%char
  else if (c =? "t")%char then "009"%char
  else c.

(** [unquoteBytes] on the bytes between the quotes of a literal that the
    scanner accepted: escapes are replaced, a surrogate pair of [\u]
    escapes becomes one rune, and bytes that are not well-formed UTF-8
    are replaced by U+FFFD.  [copy] counts the continuation bytes of a
    well-formed sequence still to be copied and [skip] the bytes of an
    escape still to be passed over. *)
Fixpoint unquoteBytes (copy skip : nat) (s : string) : string :=
  match s with
  | EmptyString => EmptyString
  | String c t =>
    match skip, copy with
    | S k, _ => unquoteBytes copy k t
    | O, S k => String c (unquoteBytes k 0 t)
    | O, O =>
      if (c =? backslash)%char then
        match t with
        | EmptyString => EmptyString
        | String e _ =>
          if (e =? "u")%char then
            let rr := getu4 s in
            if IsSurrogate rr then
              let dec := utf16_DecodeRune rr (getu4 (drop 6 s)) in
              if (dec =? ReplacementChar)%Z
              then EncodeRune ReplacementChar ++ unquoteBytes 0 5 t
              else EncodeRune dec ++ unquoteBytes 0 11 t
            else EncodeRune rr ++ unquoteBytes 0 5 t
          else String (unescape e) (unquoteBytes 0 1 t)
        end
      else if (code c <? 128)%N then String c (unquoteBytes 0 0 t)
      else
        match utf8_len c t with
        | O => EncodeRune ReplacementChar ++ unquoteBytes 0 0 t
        | S k => String c (unquoteBytes k 0 t)
        end
    end
  end.

Definition unquote (body : string) : string := unquoteBytes 0 0 body.

(** *** Number literals *)

(** The scanner's states inside a number ([stateNeg], [state0],
    [state1], [stateDot], [stateDot0], [stateE], [stateESign],
    [stateE0]). *)
Inductive numState : Type := Neg | N0 | N1 | Dot | Dot0 | Exp | ExpSign | Exp0.

Definition numEnd (st : numState) : bool :=
  match st with N0 | N1 | Dot0 | Exp0 => true | _ => false end.

Definition numStep (st : numState) (c : ascii) : option numState :=
  let isE := (c =? "e")%char || (c =? "E")%char in
  let isDot := (c =? ".")%char in
  match st with
  | Neg => if (c =? "0")%char then Some N0 else if isDigit c then Some N1 else None
  | N0 => if isDot then Some Dot else if isE then Some Exp else None
  | N1 => if isDigit c then Some N1 else if isDot then Some Dot
          else if isE then Some Exp else None
  | Dot => if isDigit c then Some Dot0 else None
  | Dot0 => if isDigit c then Some Dot0 else if isE then Some Exp else None
  | Exp => if (c =? "+")%char || (c =? "-")%char then Some ExpSign
           else if isDigit c then Some Exp0 else None
  | ExpSign => if isDigit c then Some Exp0 else None
  | Exp0 => if isDigit c then Some Exp0 else None
  end.

(** [scanNumber st s]: the rest of a number literal in state [st], and
    what follows it.  A number ends before the first byte that does not
    continue it, or at the end of the input. *)
Fixpoint scanNumber (st : numState) (s : string) : option (string * string) :=
  match s with
  | EmptyString => if numEnd st then Some (EmptyString, EmptyString) else None
  | String c t =>
    match numStep st c with
    | Some st' =>
      match scanNumber st' t with
      | Some (lit, rest) => Some (String c lit, rest)
      | None => None
      end
    | None => if numEnd st then Some (EmptyString, s) else None
    end
  end.

Definition numStart (c : ascii) : option numState :=
  if (c =? "-")%char then Some Neg
  else if (c =? "0")%char then Some N0
  else if isDigit c then Some N1
  else None.

(** [strconv.ParseInt(lit, 10, 64)] on a JSON number literal, followed
    by the check that the number fits an integer of [bitSize] bits
    ([v.OverflowInt]): an optional minus sign and decimal digits,
    nothing else, within the range. *)
Fixpoint digits (acc : Z) (s : string) : option Z :=
  match s with
  | EmptyString => Some acc
  | String c t => if isDigit c then digits (acc * 10 + (Z.of_N (code c) - 48))%Z t else None
  end.

Definition ParseInt (lit : string) (bitSize : Z) : option Z :=
  let ranged (n : Z) :=
    if ((- 2 ^ (bitSize - 1) <=? n) && (n <? 2 ^ (bitSize - 1)))%Z then Some n else None in
  match lit with
  | EmptyString => None
  | String c t =>
    if (c =? "-")%char then
      match t with
      | EmptyString => None
      | _ => match digits 0 t with Some n => ranged (- n)%Z | None => None end
      end
    else match digits 0 lit with Some n => ranged n | None => None end
  end.

(** *** Values *)

(** The tree of a JSON text.  An array keeps, with every element, the
    bytes of that element (from its first byte to its last): a type with
    an [UnmarshalJSON] method is handed these bytes.  An object keeps
    its members in the order of the text, duplicates included, under
    their unquoted keys. *)
#[warnings="-register-all"]
Inductive Value : Type :=
| Null
| Bool (b : bool)
| Number (lit : string)
| Str (s : string)
| Array (elems : list (string * Value))
| Object (members : list (string * Value)).

Inductive parsed (A : Type) : Type :=
| Done (a : A) (rest : string)
| Invalid
| OutOfFuel.
Arguments Done {A} a rest.
Arguments Invalid {A}.
Arguments OutOfFuel {A}.

Definition maxNestingDepth : N := 10000.

Fixpoint stripPrefix (p s : string) : option string :=
  match p, s with
  | EmptyString, _ => Some s
  | String a p', String b s' => if (a =? b)%char then stripPrefix p' s' else None
  | String _ _, EmptyString => None
  end.

Definition expect (c : ascii) (s : string) : option string :=
  match s with
  | String a t => if (a =? c)%char then Some t else None
  | EmptyString => None
  end.

Definition bind {A B : Type} (p : parsed A) (k : A -> string -> parsed B) : parsed B :=
  match p with
  | Done a rest => k a rest
  | Invalid => Invalid
  | OutOfFuel => OutOfFuel
  end.

Definition literal (word : string) (v : Value) (s : string) : parsed Value :=
  match stripPrefix word s with
  | Some rest => Done v rest
  | None => Invalid
  end.

(** A value that is not an array or an object: a string, a number or
    one of [true], [false], [null]. *)
Definition parseScalar (s : string) : parsed Value :=
  match s with
  | EmptyString => Invalid
  | String c t =>
    if (c =? quote)%char then
      match scanString InString t with
      | Some (body, rest) => Done (Str (unquote body)) rest
      | None => Invalid
      end
    else if (c =? "t")%char then literal "true" (Bool true) s
    else if (c =? "f")%char then literal "false" (Bool false) s
    else if (c =? "n")%char then literal "null" Null s
    else
      match numStart c with
      | Some st =>
        match scanNumber st t with
        | Some (lit, rest) => Done (Number (String c lit)) rest
        | None => Invalid
        end
      | None => Invalid
      end
  end.

(** The scanner, as a recursive descent that builds the tree.
    [parseValue fuel depth s] reads one value at the start of [s];
    [depth] is the number of arrays and objects that are open.
    [parseElems] reads the elements of an array from its first element
    to the closing bracket, [parseMembers] the members of an object from
    the first key to the closing brace. *)
Fixpoint parseValue (fuel : nat) (depth : N) (s : string) : parsed Value :=
  match fuel with
  | O => OutOfFuel
  | S fuel =>
    match s with
    | EmptyString => Invalid
    | String c t =>
      if (c =? "{")%char then
        if (maxNestingDepth <=? depth)%N then Invalid
        else
          match expect "}" (skipSpace t) with
          | Some rest => Done (Object []) rest
          | None =>
            bind (parseMembers fuel (depth + 1) (skipSpace t))
                 (fun ms rest => Done (Object ms) rest)
          end
      else if (c =? "[")%char then
        if (maxNestingDepth <=? depth)%N then Invalid
        else
          match expect "]" (skipSpace t) with
          | Some rest => Done (Array []) rest
          | None =>
            bind (parseElems fuel (depth + 1) (skipSpace t))
                 (fun es rest => Done (Array es) rest)
          end
      else parseScalar s
    end
  end
with parseElems (fuel : nat) (depth : N) (s : string) : parsed (list (string * Value)) :=
  match fuel with
  | O => OutOfFuel
  | S fuel =>
    bind (parseValue fuel depth s) (fun v rest =>
      let raw := take (String.length s - String.length rest) s in
      match expect "," (skipSpace rest) with
      | Some rest' =>
        bind (parseElems fuel depth (skipSpace rest'))
             (fun es rest'' => Done ((raw, v) :: es) rest'')
      | None =>
        match expect "]" (skipSpace rest) with
        | Some rest' => Done [(raw, v)] rest'
        | None => Invalid
        end
      end)
  end
with parseMembers (fuel : nat) (depth : N) (s : string) : parsed (list (string * Value)) :=
  match fuel with
  | O => OutOfFuel
  | S fuel =>
    match expect quote s with
    | None => Invalid
    | Some t =>
      match scanString InString t with
      | None => Invalid
      | Some (body, rest) =>
        match expect ":" (skipSpace rest) with
        | None => Invalid
        | Some rest1 =>
          bind (parseValue fuel depth (skipSpace rest1)) (fun v rest2 =>
            match expect "," (skipSpace rest2) with
            | Some rest3 =>
              bind (parseMembers fuel depth (skipSpace rest3))
                   (fun ms rest4 => Done ((unquote body, v) :: ms) rest4)
            | None =>
              match expect "}" (skipSpace rest2) with
              | Some rest3 => Done [(unquote body, v)] rest3
              | None => Invalid
              end
            end)
        end
      end
    end
  end.

(** [checkValid] followed by the construction of the tree: one value,
    with white space around it and nothing else.  The fuel is more than
    the descent can use on [data] (see [parse_fuel]). *)
Definition fuelFor (data : string) : nat := 2 * String.length data + 1.

Definition parse (data : string) : option Value :=
  match parseValue (fuelFor data) 0 (skipSpace data) with
  | Done v rest =>
    match skipSpace rest with
    | EmptyString => Some v
    | _ => None
    end
  | _ => None
  end.

(** JSON text is written here with apostrophes for the quotation marks:
    [dq] puts the quotation marks in. *)
Fixpoint dq (s : string) : string :=
  match s with
  | EmptyString => EmptyString
  | String c t => String (if (c =? "'")%char then quote else c) (dq t)
  end.

(** The elements of an array carry their own text: the bytes kept with
    an element parse to the element (see [parse_coherent]). *)
Definition arrayCoherent (v : Value) : Prop :=
  match v with
  | Array es => Forall (fun e => parse (fst e) = Some (snd e)) es
  | _ => True
  end.

(** [follows rest rest']: [rest'] is empty or starts with the byte that
    [rest] starts with, so that a number that ends before [rest] ends
    before [rest'] too. *)
Definition follows (rest rest' : string) : Prop :=
  rest' = "" \/ exists c t t', rest = String c t /\ rest' = String c t'.

(** *** Decoding a value into a Go variable *)

(** What decoding into a variable of type [A] gives: the variable's new
    contents and the error the decoder saved ([d.saveError], which does
    not stop the decoding), or the error that an [UnmarshalJSON] method
    returned, which stops it.  The contents of the target after such a
    stop are not modelled: both callers in this package drop it. *)
Inductive decoded (A : Type) : Type :=
| Stored (a : A) (saved : option error)
| Aborted (err : error).
Arguments Stored {A} a saved.
Arguments Aborted {A} err.

(** [d.saveError] keeps the first error. *)
Definition saveError (saved new : option error) : option error :=
  match saved with
  | Some _ => saved
  | None => new
  end.

(** The description of a JSON value in an [UnmarshalTypeError]. *)
Definition describe (v : Value) : string :=
  match v with
  | Null => "null"
  | Bool _ => "bool"
  | Number _ => "number"
  | Str _ => "string"
  | Array _ => "array"
  | Object _ => "object"
  end.

Definition mismatch (v : Value) : option error := Some (UnmarshalTypeError (describe v)).

(** The size of [int] ([strconv.IntSize]) on 64-bit targets. *)
Definition IntSize : Z := 64.

(** A JSON value into an integer variable of [bitSize] bits: a number
    literal that [strconv.ParseInt] accepts and that fits is stored;
    [null] has no effect; anything else is a type error and leaves the
    variable as it was. *)
Definition decodeInt (bitSize : Z) (v : Value) (old : Z) : Z * option error :=
  match v with
  | Number lit =>
    match ParseInt lit bitSize with
    | Some n => (n, None)
    | None => (old, Some (UnmarshalTypeError ("number " ++ lit)))
    end
  | Null => (old, None)
  | _ => (old, mismatch v)
  end.

(** A JSON value into a [string] variable. *)
Definition decodeString (v : Value) (old : string) : string * option error :=
  match v with
  | Str s => (s, None)
  | Null => (old, None)
  | _ => (old, mismatch v)
  end.

(** A Go slice: [nil], or its elements together with what the backing
    array holds behind them ([spare], the elements that an earlier,
    longer contents left there; further capacity is zeroed). *)
Inductive slice (A : Type) : Type :=
| nil_slice
| mk_slice (items spare : list A).
Arguments nil_slice {A}.
Arguments mk_slice {A} items spare.

Definition items {A : Type} (s : slice A) : list A :=
  match s with
  | nil_slice => []
  | mk_slice l _ => l
  end.

Definition backing {A : Type} (s : slice A) : list A :=
  match s with
  | nil_slice => []
  | mk_slice l sp => l ++ sp
  end.

(** The loop of [d.array] on a slice: the i-th JSON element is decoded
    into the i-th element of the backing array when there is one (the
    element is not zeroed first) and into a zero element appended to it
    otherwise.  [done] holds the elements decoded so far, [old] the part
    of the backing array not yet reached. *)
Fixpoint decodeElems {A : Type} (zero : A) (elem : string * Value -> A -> decoded A)
    (es : list (string * Value)) (old : list A) (done : list A) (saved : option error)
    : decoded (list A * list A) :=
  match es with
  | [] => Stored (done, old) saved
  | e :: es' =>
    match elem e (hd zero old) with
    | Stored a err => decodeElems zero elem es' (tl old) (done ++ [a]) (saveError saved err)
    | Aborted err => Aborted err
    end
  end.

(** A JSON value into a slice variable: an array is decoded element by
    element and the slice is cut to the number of elements (an empty
    array gives a fresh empty slice); [null] gives [nil]; anything else
    is a type error. *)
Definition decodeSlice {A : Type} (zero : A) (elem : string * Value -> A -> decoded A)
    (v : Value) (old : slice A) : decoded (slice A) :=
  match v with
  | Array [] => Stored (mk_slice [] []) None
  | Array es =>
    match decodeElems zero elem es (backing old) [] None with
    | Stored (its, sp) saved => Stored (mk_slice its sp) saved
    | Aborted err => Aborted err
    end
  | Null => Stored nil_slice None
  | _ => Stored old (mismatch v)
  end.

(** An element without an [UnmarshalJSON] method: a [string]. *)
Definition stringElem (e : string * Value) (old : string) : decoded string :=
  let (s, err) := decodeString (snd e) old in Stored s err.

(** *** Struct fields *)

(** [foldName]: the key under which a field is found when no field has
    exactly the name.  ASCII letters are put in upper case, and the two
    runes outside ASCII whose case folding is an ASCII letter, U+212A
    (Kelvin sign) and U+017F (long s), become [K] and [S].  Every other
    rune outside ASCII folds to a rune outside ASCII and is left as it
    is: the field names of this package are ASCII, so that the same
    field is selected. *)
Fixpoint foldName (s : string) : string :=
  match s with
  | EmptyString => EmptyString
  | String "226" (String "132" (String "170" t)) => String "K" (foldName t)
  | String "197" (String "191" t) => String "S" (foldName t)
  | String c t =>
    String (if between 97 122 c then ascii_of_N (code c - 32) else c) (foldName t)
  end.

Fixpoint index (p : string -> bool) (names : list string) : option nat :=
  match names with
  | [] => None
  | n :: names' => if p n then Some O else option_map S (index p names')
  end.

(** The field that a key selects: the one with exactly this name, or
    else the first whose name is the key up to case folding. *)
Definition findField (names : list string) (key : string) : option nat :=
  match index (String.eqb key) names with
  | Some i => Some i
  | None => index (fun n => String.eqb (foldName n) (foldName key)) names
  end.

(** The loop of [d.object] on a struct: the members in the order of the
    text, each stored by [setField] into the field its key selects. *)
Fixpoint decodeMembers {T : Type} (setField : string -> Value -> T -> decoded T)
    (ms : list (string * Value)) (t : T) (saved : option error) : decoded T :=
  match ms with
  | [] => Stored t saved
  | (key, v) :: ms' =>
    match setField key v t with
    | Stored t' err => decodeMembers setField ms' t' (saveError saved err)
    | Aborted err => Aborted err
    end
  end.

(** A JSON value into a struct variable: an object is decoded member by
    member; [null] has no effect; anything else is a type error. *)
Definition decodeStruct {T : Type} (setField : string -> Value -> T -> decoded T)
    (v : Value) (t : T) : decoded T :=
  match v with
  | Object ms => decodeMembers setField ms t None
  | Null => Stored t None
  | _ => Stored t (mismatch v)
  end.

(** [json.Unmarshal(data, &t)] for a struct [t] without methods:
    [checkValid], then the decoding; the error is the one that stopped
    the decoding, or else the saved one. *)
Definition Unmarshal {T : Type} (setField : string -> Value -> T -> decoded T)
    (data : string) (t : T) : T * option error :=
  match parse data with
  | None => (t, Some SyntaxError)
  | Some v =>
    match decodeStruct setField v t with
    | Stored t' saved => (t', saved)
    | Aborted err => (t, Some err)
    end
  end.

(** *** The values that a variable takes without a type error *)

Definition fitsInt (bitSize : Z) (v : Value) : bool :=
  match v with
  | Null => true
  | Number lit => match ParseInt lit bitSize with Some _ => true | None => false end
  | _ => false
  end.

Definition fitsString (v : Value) : bool :=
  match v with
  | Null | Str _ => true
  | _ => false
  end.

Definition fitsSlice (elem : string * Value -> bool) (v : Value) : bool :=
  match v with
  | Null => true
  | Array es => forallb elem es
  | _ => false
  end.

Definition fitsStruct (fits : string -> Value -> bool) (v : Value) : bool :=
  match v with
  | Null => true
  | Object ms => forallb (fun m => fits (fst m) (snd m)) ms
  | _ => false
  end.

Definition isTypeError (err : error) : Prop := exists d, err = UnmarshalTypeError d.

(** [outcome ok d]: the decoding [d] went without an error when [ok]
    holds, and ended with a type error when it does not. *)
Definition outcome {A : Type} (ok : bool) (d : decoded A) : Prop :=
  match d with
  | Stored _ None => ok = true
  | Stored _ (Some err) | Aborted err => ok = false /\ isTypeError err
  end.

(** [selects name key]: the key is the name of the field up to case
    folding; [hasKey name ms]: some member of the object has such a
    key. *)
Definition selects (name key : string) : bool :=
  String.eqb (foldName name) (foldName key).

Definition hasKey (name : string) (ms : list (string * Value)) : bool :=
  existsb (fun m => selects name (fst m)) ms.

End json.

(** ** Result *)

Module Result.

(** [Result] represents the status of a processed message. *)
Record t : Type := mk {
  MessageID : string;
  RegistrationID : string;
  Error : option error
}.

Definition zero : t := mk "" "" None.

(** The local variable [result] of [UnmarshalJSON]. *)
Module result.
Record t : Type := mk {
  MessageID : string;
  RegistrationID : string;
  Error : string
}.
Definition zero : t := mk "" "" "".
Definition names : list string := ["message_id"; "registration_id"; "error"].

Definition setField (key : string) (v : json.Value) (x : t) : json.decoded t :=
  match json.findField names key with
  | Some 0%nat =>
    let (s, err) := json.decodeString v (MessageID x) in
    json.Stored (mk s (RegistrationID x) (Error x)) err
  | Some 1%nat =>
    let (s, err) := json.decodeString v (RegistrationID x) in
    json.Stored (mk (MessageID x) s (Error x)) err
  | Some 2%nat =>
    let (s, err) := json.decodeString v (Error x) in
    json.Stored (mk (MessageID x) (RegistrationID x) s) err
  | _ => json.Stored x None
  end.
End result.

(** [UnmarshalJSON] implements the [json.Unmarshaler] interface.  The
    receiver is a pointer: the method takes the [Result] it points to
    and returns what it points to afterwards, with the returned error. *)
Definition UnmarshalJSON (r : t) (data : string) : t * option error :=
  let (result, err) := json.Unmarshal result.setField data result.zero in
  match err with
  | Some err => (r, Some err)
  | None =>
    let r := mk (result.MessageID result) (RegistrationID r) (Error r) in
    let r := mk (MessageID r) (result.RegistrationID result) (Error r) in
    let r :=
      if negb (result.Error result =? "")%string
      then mk (MessageID r) (RegistrationID r) (Some (classify (result.Error result)))
      else r in
    (r, None)
  end.

(** [Unregistered] checks if the device token is unregistered. *)
Definition Unregistered (r : t) : bool :=
  bool_decide (Error r = Some ErrNotRegistered)
  || bool_decide (Error r = Some ErrMismatchSenderID)
  || bool_decide (Error r = Some ErrMissingRegistration)
  || bool_decide (Error r = Some ErrInvalidRegistration).

(** The element decoder of a [[]Result]: the element's bytes go to its
    [UnmarshalJSON]; an error it returns stops the decoding. *)
Definition elem (e : string * json.Value) (old : t) : json.decoded t :=
  match UnmarshalJSON old (fst e) with
  | (r, None) => json.Stored r None
  | (_, Some err) => json.Aborted err
  end.

(** A value all of whose members fit the fields they select. *)
Definition fits (key : string) (v : json.Value) : bool :=
  match json.findField result.names key with
  | Some 0%nat | Some 1%nat | Some 2%nat => json.fitsString v
  | _ => true
  end.

Definition wellTyped (v : json.Value) : bool := json.fitsStruct fits v.

End Result.
(** ** Response *)

Module Response.

(** [Response] represents the FCM server's response to the application
    server's sent message.  [int64] and [int] values are integers in
    the range of the type. *)
Record t : Type := mk {
  MulticastID : Z;
  Success : Z;
  Failure : Z;
  CanonicalIDs : Z;
  Results : json.slice Result.t;
  FailedRegistrationIDs : json.slice string;
  MessageID : Z;
  Error : option error
}.

Definition zero : t := mk 0 0 0 0 json.nil_slice json.nil_slice 0 None.

(** The assignments to the fields of the receiver. *)
Definition set_MulticastID (x : Z) (r : t) : t :=
  mk x (Success r) (Failure r) (CanonicalIDs r) (Results r) (FailedRegistrationIDs r)
     (MessageID r) (Error r).
Definition set_Success (x : Z) (r : t) : t :=
  mk (MulticastID r) x (Failure r) (CanonicalIDs r) (Results r) (FailedRegistrationIDs r)
     (MessageID r) (Error r).
Definition set_Failure (x : Z) (r : t) : t :=
  mk (MulticastID r) (Success r) x (CanonicalIDs r) (Results r) (FailedRegistrationIDs r)
     (MessageID r) (Error r).
Definition set_CanonicalIDs (x : Z) (r : t) : t :=
  mk (MulticastID r) (Success r) (Failure r) x (Results r) (FailedRegistrationIDs r)
     (MessageID r) (Error r).
Definition set_Results (x : json.slice Result.t) (r : t) : t :=
  mk (MulticastID r) (Success r) (Failure r) (CanonicalIDs r) x (FailedRegistrationIDs r)
     (MessageID r) (Error r).
Definition set_FailedRegistrationIDs (x : json.slice string) (r : t) : t :=
  mk (MulticastID r) (Success r) (Failure r) (CanonicalIDs r) (Results r) x
     (MessageID r) (Error r).
Definition set_MessageID (x : Z) (r : t) : t :=
  mk (MulticastID r) (Success r) (Failure r) (CanonicalIDs r) (Results r)
     (FailedRegistrationIDs r) x (Error r).
Definition set_Error (x : option error) (r : t) : t :=
  mk (MulticastID r) (Success r) (Failure r) (CanonicalIDs r) (Results r)
     (FailedRegistrationIDs r) (MessageID r) x.

(** The local variable [response] of [UnmarshalJSON]. *)
Module response.
Record t : Type := mk {
  MulticastID : Z;
  Success : Z;
  Failure : Z;
  CanonicalIDs : Z;
  Results : json.slice Result.t;
  FailedRegistrationIDs : json.slice string;
  MessageID : Z;
  Error : string
}.
Definition zero : t := mk 0 0 0 0 json.nil_slice json.nil_slice 0 "".
Definition names : list string :=
  ["multicast_id"; "success"; "failure"; "canonical_ids"; "results";
   "failed_registration_ids"; "message_id"; "error"].

Definition setField (key : string) (v : json.Value) (x : t) : json.decoded t :=
  match json.findField names key with
  | Some 0%nat =>
    let (n, err) := json.decodeInt 64 v (MulticastID x) in
    json.Stored (mk n (Success x) (Failure x) (CanonicalIDs x) (Results x)
                    (FailedRegistrationIDs x) (MessageID x) (Error x)) err
  | Some 1%nat =>
    let (n, err) := json.decodeInt json.IntSize v (Success x) in
    json.Stored (mk (MulticastID x) n (Failure x) (CanonicalIDs x) (Results x)
                    (FailedRegistrationIDs x) (MessageID x) (Error x)) err
  | Some 2%nat =>
    let (n, err) := json.decodeInt json.IntSize v (Failure x) in
    json.Stored (mk (MulticastID x) (Success x) n (CanonicalIDs x) (Results x)
                    (FailedRegistrationIDs x) (MessageID x) (Error x)) err
  | Some 3%nat =>
    let (n, err) := json.decodeInt json.IntSize v (CanonicalIDs x) in
    json.Stored (mk (MulticastID x) (Success x) (Failure x) n (Results x)
                    (FailedRegistrationIDs x) (MessageID x) (Error x)) err
  | Some 4%nat =>
    match json.decodeSlice Result.zero Result.elem v (Results x) with
    | json.Stored rs err =>
      json.Stored (mk (MulticastID x) (Success x) (Failure x) (CanonicalIDs x) rs
                      (FailedRegistrationIDs x) (MessageID x) (Error x)) err
    | json.Aborted err => json.Aborted err
    end
  | Some 5%nat =>
    match json.decodeSlice EmptyString json.stringElem v (FailedRegistrationIDs x) with
    | json.Stored ids err =>
      json.Stored (mk (MulticastID x) (Success x) (Failure x) (CanonicalIDs x) (Results x)
                      ids (MessageID x) (Error x)) err
    | json.Aborted err => json.Aborted err
    end
  | Some 6%nat =>
    let (n, err) := json.decodeInt 64 v (MessageID x) in
    json.Stored (mk (MulticastID x) (Success x) (Failure x) (CanonicalIDs x) (Results x)
                    (FailedRegistrationIDs x) n (Error x)) err
  | Some 7%nat =>
    let (s, err) := json.decodeString v (Error x) in
    json.Stored (mk (MulticastID x) (Success x) (Failure x) (CanonicalIDs x) (Results x)
                    (FailedRegistrationIDs x) (MessageID x) s) err
  | _ => json.Stored x None
  end.

(** Two values of the struct agree on their i-th field. *)
Definition sameField (i : nat) (x y : t) : Prop :=
  match i with
  | 0%nat => MulticastID x = MulticastID y
  | 1%nat => Success x = Success y
  | 2%nat => Failure x = Failure y
  | 3%nat => CanonicalIDs x = CanonicalIDs y
  | 4%nat => Results x = Results y
  | 5%nat => FailedRegistrationIDs x = FailedRegistrationIDs y
  | 6%nat => MessageID x = MessageID y
  | 7%nat => Error x = Error y
  | _ => True
  end.
End response.

(** [UnmarshalJSON] implements the [json.Unmarshaler] interface. *)
Definition UnmarshalJSON (r : t) (data : string) : t * option error :=
  let (response, err) := json.Unmarshal response.setField data response.zero in
  match err with
  | Some err => (r, Some err)
  | None =>
    let r := set_MulticastID (response.MulticastID response) r in
    let r := set_Success (response.Success response) r in
    let r := set_Failure (response.Failure response) r in
    let r := set_CanonicalIDs (response.CanonicalIDs response) r in
    let r := set_Results (response.Results response) r in
    let r := set_Success (response.Success response) r in
    let r := set_FailedRegistrationIDs (response.FailedRegistrationIDs response) r in
    let r := set_MessageID (response.MessageID response) r in
    let r :=
      if negb (response.Error response =? "")%string
      then set_Error (Some (classify (response.Error response))) r
      else r in
    (r, None)
  end.

(** A value all of whose members fit the fields they select. *)
Definition fits (key : string) (v : json.Value) : bool :=
  match json.findField response.names key with
  | Some 0%nat | Some 6%nat => json.fitsInt 64 v
  | Some 1%nat | Some 2%nat | Some 3%nat => json.fitsInt json.IntSize v
  | Some 4%nat => json.fitsSlice (fun e => Result.wellTyped (snd e)) v
  | Some 5%nat => json.fitsSlice (fun e => json.fitsString (snd e)) v
  | Some 7%nat => json.fitsString v
  | _ => true
  end.

Definition wellTyped (v : json.Value) : bool := json.fitsStruct fits v.

End Response.

(** No member of the object carries an error code: every member whose
    key selects the field [error] is the empty string or [null]. *)
Definition noErrorCode (v : json.Value) : bool :=
  match v with
  | json.Object ms =>
    forallb (fun m => negb (json.selects "error" (fst m))
                      || match snd m with
                         | json.Null | json.Str EmptyString => true
                         | _ => false
                         end) ms
  | _ => true
  end.

(** The pairs of [errMap], the error values of the [var] block, and the
    codes of the four errors that [Unregistered] looks for. *)
Definition errTable : list (string * error) :=
  [("MissingRegistration", ErrMissingRegistration);
   ("InvalidRegistration", ErrInvalidRegistration);
   ("NotRegistered", ErrNotRegistered);
   ("InvalidPackageName", ErrInvalidPackageName);
   ("MismatchSenderId", ErrMismatchSenderID);
   ("MessageTooBig", ErrMessageTooBig);
   ("InvalidDataKey", ErrInvalidDataKey);
   ("InvalidTtl", ErrInvalidTTL);
   ("Unavailable", ErrUnavailable);
   ("InternalServerError", ErrInternalServerError);
   ("DeviceMessageRateExceeded", ErrDeviceMessageRateExceeded);
   ("TopicsMessageRateExceeded", ErrTopicsMessageRateExceeded);
   ("InvalidParameters", ErrInvalidParameters);
   ("InvalidApnsCredential", ErrInvalidApnsCredential)].

Definition packageErrors : list error :=
  [ErrMissingRegistration; ErrInvalidRegistration; ErrNotRegistered; ErrInvalidPackageName;
   ErrMismatchSenderID; ErrMessageTooBig; ErrInvalidDataKey; ErrInvalidTTL; ErrUnavailable;
   ErrInternalServerError; ErrDeviceMessageRateExceeded; ErrTopicsMessageRateExceeded;
   ErrInvalidParameters; ErrUnknown; ErrInvalidApnsCredential].

Definition unregisteredCodes : list string :=
  ["NotRegistered"; "MismatchSenderId"; "MissingRegistration"; "InvalidRegistration"].

(** An [error] field holds [nil] or an error value of the package. *)
Definition packageError (err : option error) : Prop :=
  match err with
  | None => True
  | Some e => e ∈ packageErrors
  end.

(** The range of a signed integer of [bits] bits. *)
Definition inInt (bits n : Z) : Prop := (- 2 ^ (bits - 1) <= n < 2 ^ (bits - 1))%Z.

(** Two values of the local struct of [Result.UnmarshalJSON] agree on
    their i-th field. *)
Definition resultSameField (i : nat) (x y : Result.result.t) : Prop :=
  match i with
  | 0%nat => Result.result.MessageID x = Result.result.MessageID y
  | 1%nat => Result.result.RegistrationID x = Result.result.RegistrationID y
  | 2%nat => Result.result.Error x = Result.result.Error y
  | _ => True
  end.

(** * Properties *)

Import json.

(** ** The model on small inputs *)

Example classify_ttl : classify "InvalidTtl" = ErrInvalidTTL.
Proof. vm_compute. reflexivity. Qed.

(** The key of the table is [InvalidTtl]; the text of the error value,
    [InvalidTTL], is not a key. *)
Example classify_TTL : classify "InvalidTTL" = ErrUnknown.
Proof. vm_compute. reflexivity. Qed.

Example unquote_escapes :
  list_ascii_of_string (unquote "a\té😀\ud800")
  = ["a"; "009"; "195"; "169"; "240"; "159"; "152"; "128"; "239"; "191"; "189"]%char.
Proof. vm_compute. reflexivity. Qed.

Example unquote_invalid_utf8 :
  list_ascii_of_string (unquote (String "255" "x")) = ["239"; "191"; "189"; "x"]%char.
Proof. vm_compute. reflexivity. Qed.

Example parse_array :
  parse "[1, -0, 2.5e+3, true, null]"
  = Some (Array [("1", Number "1"); ("-0", Number "-0"); ("2.5e+3", Number "2.5e+3");
                 ("true", Bool true); ("null", Null)]).
Proof. vm_compute. reflexivity. Qed.

Example parse_trailing_comma : parse "[1,]" = None.
Proof. vm_compute. reflexivity. Qed.

Example parse_leading_zero : parse "[01]" = None.
Proof. vm_compute. reflexivity. Qed.

Example parse_two_values : parse (dq "{'a':1} x") = None.
Proof. vm_compute. reflexivity. Qed.

Example ParseInt_max : ParseInt "9223372036854775807" 64 = Some 9223372036854775807%Z.
Proof. vm_compute. reflexivity. Qed.

Example ParseInt_overflow : ParseInt "9223372036854775808" 64 = None.
Proof. vm_compute. reflexivity. Qed.

Example findField_fold : findField Response.response.names "Multicast_ID" = Some 0%nat.
Proof. vm_compute. reflexivity. Qed.

Example findField_long_s :
  findField Response.response.names (String "197" (String "191" "uccess")) = Some 1%nat.
Proof. vm_compute. reflexivity. Qed.

Example findField_unknown : findField Response.response.names "errors" = None.
Proof. vm_compute. reflexivity. Qed.

Example decode_message_id :
  Response.UnmarshalJSON Response.zero (dq "{'results':[{'message_id':'1:abc'}]}")
  = (Response.mk 0 0 0 0 (mk_slice [Result.mk "1:abc" "" None] []) nil_slice 0 None, None).
Proof. vm_compute. reflexivity. Qed.

Example decode_not_registered :
  Response.UnmarshalJSON Response.zero (dq "{'results':[{'error':'NotRegistered'}]}")
  = (Response.mk 0 0 0 0 (mk_slice [Result.mk "" "" (Some ErrNotRegistered)] [])
       nil_slice 0 None, None) /\
  Result.Unregistered (Result.mk "" "" (Some ErrNotRegistered)) = true.
Proof. split; vm_compute; reflexivity. Qed.

Example decode_too_big :
  Response.UnmarshalJSON Response.zero (dq "{'results':[{'error':'MessageTooBig'}]}")
  = (Response.mk 0 0 0 0 (mk_slice [Result.mk "" "" (Some ErrMessageTooBig)] [])
       nil_slice 0 None, None) /\
  Result.Unregistered (Result.mk "" "" (Some ErrMessageTooBig)) = false.
Proof. split; vm_compute; reflexivity. Qed.

Example decode_truncated :
  Response.UnmarshalJSON Response.zero (dq "{'results':[{'message_id':'1:abc'}")
  = (Response.zero, Some SyntaxError).
Proof. vm_compute. reflexivity. Qed.

Example decode_fraction :
  Response.UnmarshalJSON Response.zero (dq "{'message_id':1.5}")
  = (Response.zero, Some (UnmarshalTypeError "number 1.5")).
Proof. vm_compute. reflexivity. Qed.

(** The receiver's error stays when the payload has no error code. *)
Example decode_into_used_result :
  Result.UnmarshalJSON (Result.mk "m" "r" (Some ErrNotRegistered)) "{}"
  = (Result.mk "" "" (Some ErrNotRegistered), None).
Proof. vm_compute. reflexivity. Qed.

(** A second member under the same key is decoded into the elements
    that the first one left in the slice; the element that is cut off
    stays in the backing array. *)
Example decode_results_twice :
  Response.UnmarshalJSON Response.zero
    (dq "{'results':[{'error':'NotRegistered'},{'message_id':'m2'}],'results':[{}]}")
  = (Response.mk 0 0 0 0
       (mk_slice [Result.mk "" "" (Some ErrNotRegistered)] [Result.mk "m2" "" None])
       nil_slice 0 None, None).
Proof. vm_compute. reflexivity. Qed.

(** ** The error table *)

Lemma errMap_lookup_Some (code : string) (val : error) :
  errMap !! code = Some val ->
  (code, val) ∈
    [("MissingRegistration", ErrMissingRegistration);
     ("InvalidRegistration", ErrInvalidRegistration);
     ("NotRegistered", ErrNotRegistered);
     ("InvalidPackageName", ErrInvalidPackageName);
     ("MismatchSenderId", ErrMismatchSenderID);
     ("MessageTooBig", ErrMessageTooBig);
     ("InvalidDataKey", ErrInvalidDataKey);
     ("InvalidTtl", ErrInvalidTTL);
     ("Unavailable", ErrUnavailable);
     ("InternalServerError", ErrInternalServerError);
     ("DeviceMessageRateExceeded", ErrDeviceMessageRateExceeded);
     ("TopicsMessageRateExceeded", ErrTopicsMessageRateExceeded);
     ("InvalidParameters", ErrInvalidParameters);
     ("InvalidApnsCredential", ErrInvalidApnsCredential)].
Proof. apply elem_of_list_to_map_2. Qed.

Lemma errMap_lookup_None (code : string) :
  code ∉ knownCodes -> errMap !! code = None.
Proof. intros H. apply not_elem_of_list_to_map_1. exact H. Qed.

Lemma classify_unknown (code : string) :
  code ∉ knownCodes -> classify code = ErrUnknown.
Proof. intros H. unfold classify. by rewrite errMap_lookup_None. Qed.

(** What [classify] returns is an error of the table or [ErrUnknown];
    it is [ErrUnavailable] or [ErrInternalServerError] for their own
    codes only. *)
Lemma classify_connection (code s : string) :
  classify code = connectionError s -> code = "Unavailable".
Proof.
  unfold classify. destruct (errMap !! code) as [val|] eqn:E; [|discriminate].
  intros ->. apply errMap_lookup_Some in E.
  repeat (apply elem_of_cons in E as [E|E]; [by inversion E|]).
  by apply elem_of_nil in E.
Qed.

Lemma classify_server (code s : string) :
  classify code = serverError s -> code = "InternalServerError".
Proof.
  unfold classify. destruct (errMap !! code) as [val|] eqn:E; [|discriminate].
  intros ->. apply errMap_lookup_Some in E.
  repeat (apply elem_of_cons in E as [E|E]; [by inversion E|]).
  by apply elem_of_nil in E.
Qed.

(** ** The scanner *)

Lemma skipSpace_length (s : string) : String.length (skipSpace s) <= String.length s.
Proof.
  induction s as [|c t IH]; simpl; [lia|]. destruct (isSpace c); simpl; lia.
Qed.

Lemma expect_length (c : ascii) (s rest : string) :
  expect c s = Some rest -> String.length s = S (String.length rest).
Proof.
  destruct s as [|a t]; simpl; [done|]. destruct (a =? c)%char; [|done].
  by intros [= ->].
Qed.

Lemma stripPrefix_length (p s rest : string) :
  stripPrefix p s = Some rest -> String.length s = String.length p + String.length rest.
Proof.
  revert s. induction p as [|a p IH]; intros s; simpl.
  - by intros [= ->].
  - destruct s as [|b s]; [done|]. destruct (a =? b)%char; [|done].
    intros H. apply IH in H. simpl. lia.
Qed.

Lemma scanString_length (st : strState) (s body rest : string) :
  scanString st s = Some (body, rest) -> String.length rest < String.length s.
Proof.
  revert st body. induction s as [|c t IH]; intros st body; simpl; [done|].
  assert (forall st' b, match scanString st' t with
                        | Some (body, rest) => Some (String c body, rest)
                        | None => None
                        end = Some (b, rest) -> String.length rest < S (String.length t))
    as Hkeep.
  { intros st' b H. destruct (scanString st' t) as [[b' r']|] eqn:E; [|done].
    injection H as _ ->. apply IH in E. lia. }
  destruct st.
  - destruct (c =? quote)%char; [intros [= _ ->]; lia|].
    destruct (c =? backslash)%char; [apply Hkeep|].
    destruct (code c <? 32)%N; [done | apply Hkeep].
  - destruct (isEscape c); [apply Hkeep|].
    destruct (c =? "u")%char; [apply Hkeep | done].
  - destruct (isHex c); [apply Hkeep | done].
Qed.

Lemma scanNumber_length (st : numState) (s lit rest : string) :
  scanNumber st s = Some (lit, rest) -> String.length rest <= String.length s.
Proof.
  revert st lit. induction s as [|c t IH]; intros st lit; simpl.
  - destruct (numEnd st); [|done]. by intros [= _ <-].
  - destruct (numStep st c) as [st'|].
    + destruct (scanNumber st' t) as [[l r]|] eqn:E; [|done].
      intros [= _ <-]. apply IH in E. lia.
    + destruct (numEnd st); [|done]. intros [= _ <-]. simpl. lia.
Qed.

Lemma parseScalar_length (s rest : string) (v : Value) :
  parseScalar s = Done v rest -> String.length rest < String.length s.
Proof.
  destruct s as [|c t]; simpl; [done|].
  destruct (c =? quote)%char.
  { destruct (scanString InString t) as [[b r]|] eqn:E; [|done].
    intros [= _ <-]. apply scanString_length in E. lia. }
  assert (forall word w, literal word w (String c t) = Done v rest -> word <> "" ->
            String.length rest < S (String.length t)) as Hlit.
  { intros word w. unfold literal.
    destruct (stripPrefix word (String c t)) as [r|] eqn:E; [|done].
    intros [= _ <-] Hne. apply stripPrefix_length in E. simpl in E.
    destruct word; [done|]. simpl in E. lia. }
  destruct (c =? "t")%char; [intros H; by apply (Hlit _ _ H)|].
  destruct (c =? "f")%char; [intros H; by apply (Hlit _ _ H)|].
  destruct (c =? "n")%char; [intros H; by apply (Hlit _ _ H)|].
  destruct (numStart c) as [st|]; [|done].
  destruct (scanNumber st t) as [[l r]|] eqn:E; [|done].
  intros [= _ <-]. apply scanNumber_length in E. lia.
Qed.

Lemma parseScalar_fuel (s : string) : parseScalar s <> OutOfFuel.
Proof.
  destruct s as [|c t]; simpl; [done|]. unfold literal.
  repeat case_match; done.
Qed.

(** Every value, element list and member list that the descent reads
    takes at least one byte. *)
Lemma parse_progress (n : nat) :
  (forall d s v rest, parseValue n d s = Done v rest ->
     String.length rest < String.length s) /\
  (forall d s es rest, parseElems n d s = Done es rest ->
     String.length rest < String.length s) /\
  (forall d s ms rest, parseMembers n d s = Done ms rest ->
     String.length rest < String.length s).
Proof.
  induction n as [|n (IHv & IHe & IHm)]; [done|].
  split; [|split].
  - intros d s v rest. destruct s as [|c t]; [done|].
    cbn [parseValue].
    destruct (c =? "{")%char.
    { destruct (maxNestingDepth <=? d)%N; [done|].
      destruct (expect "}" (skipSpace t)) as [r|] eqn:E.
      - intros [= _ <-]. apply expect_length in E.
        pose proof (skipSpace_length t). simpl. lia.
      - destruct (parseMembers n (d + 1) (skipSpace t)) as [ms r| |] eqn:M; try done.
        simpl. intros [= _ <-]. apply IHm in M.
        pose proof (skipSpace_length t). simpl. lia. }
    destruct (c =? "[")%char.
    { destruct (maxNestingDepth <=? d)%N; [done|].
      destruct (expect "]" (skipSpace t)) as [r|] eqn:E.
      - intros [= _ <-]. apply expect_length in E.
        pose proof (skipSpace_length t). simpl. lia.
      - destruct (parseElems n (d + 1) (skipSpace t)) as [es r| |] eqn:M; try done.
        simpl. intros [= _ <-]. apply IHe in M.
        pose proof (skipSpace_length t). simpl. lia. }
    apply parseScalar_length.
  - intros d s es rest. cbn [parseElems].
    destruct (parseValue n d s) as [v r| |] eqn:V; try done. simpl.
    apply IHv in V.
    destruct (expect "," (skipSpace r)) as [r'|] eqn:E.
    + destruct (parseElems n d (skipSpace r')) as [es' r''| |] eqn:M; try done.
      simpl. intros [= _ <-]. apply IHe in M. apply expect_length in E.
      pose proof (skipSpace_length r). pose proof (skipSpace_length r'). lia.
    + destruct (expect "]" (skipSpace r)) as [r'|] eqn:E'; [|done].
      intros [= _ <-]. apply expect_length in E'.
      pose proof (skipSpace_length r). lia.
  - intros d s ms rest. cbn [parseMembers].
    destruct (expect quote s) as [t|] eqn:Q; [|done].
    destruct (scanString InString t) as [[body r]|] eqn:B; [|done].
    destruct (expect ":" (skipSpace r)) as [r1|] eqn:C; [|done].
    destruct (parseValue n d (skipSpace r1)) as [v r2| |] eqn:V; try done. simpl.
    apply expect_length in Q, C. apply scanString_length in B. apply IHv in V.
    pose proof (skipSpace_length r). pose proof (skipSpace_length r1).
    destruct (expect "," (skipSpace r2)) as [r3|] eqn:E.
    + destruct (parseMembers n d (skipSpace r3)) as [ms' r4| |] eqn:M; try done.
      simpl. intros [= _ <-]. apply IHm in M. apply expect_length in E.
      pose proof (skipSpace_length r2). pose proof (skipSpace_length r3). lia.
    + destruct (expect "}" (skipSpace r2)) as [r3|] eqn:E'; [|done].
      intros [= _ <-]. apply expect_length in E'.
      pose proof (skipSpace_length r2). lia.
Qed.

(** The descent does not run out of fuel when it is given twice the
    length of the text. *)
Lemma parse_fuel_enough (n : nat) :
  (forall d s, 2 * String.length s + 1 <= n -> parseValue n d s <> OutOfFuel) /\
  (forall d s, 2 * String.length s + 2 <= n -> parseElems n d s <> OutOfFuel) /\
  (forall d s, 2 * String.length s + 2 <= n -> parseMembers n d s <> OutOfFuel).
Proof.
  induction n as [|n (IHv & IHe & IHm)]; [repeat split; intros; lia|].
  pose proof (parse_progress n) as (Pv & Pe & Pm).
  split; [|split].
  - intros d s Hn. destruct s as [|c t]; [done|]. cbn [parseValue].
    simpl in Hn. pose proof (skipSpace_length t).
    destruct (c =? "{")%char.
    { destruct (maxNestingDepth <=? d)%N; [done|].
      destruct (expect "}" (skipSpace t)); [done|].
      destruct (parseMembers n (d + 1) (skipSpace t)) eqn:M; try done.
      apply IHm in M; [done | lia]. }
    destruct (c =? "[")%char.
    { destruct (maxNestingDepth <=? d)%N; [done|].
      destruct (expect "]" (skipSpace t)); [done|].
      destruct (parseElems n (d + 1) (skipSpace t)) eqn:M; try done.
      apply IHe in M; [done | lia]. }
    apply parseScalar_fuel.
  - intros d s Hn. cbn [parseElems].
    destruct (parseValue n d s) as [v r| |] eqn:V; try done; simpl.
    + apply Pv in V. pose proof (skipSpace_length r).
      destruct (expect "," (skipSpace r)) as [r'|] eqn:E.
      * apply expect_length in E. pose proof (skipSpace_length r').
        destruct (parseElems n d (skipSpace r')) eqn:M; try done.
        apply IHe in M; [done | lia].
      * by destruct (expect "]" (skipSpace r)).
    + apply IHv in V; [done | lia].
  - intros d s Hn. cbn [parseMembers].
    destruct (expect quote s) as [t|] eqn:Q; [|done].
    destruct (scanString InString t) as [[body r]|] eqn:B; [|done].
    destruct (expect ":" (skipSpace r)) as [r1|] eqn:C; [|done].
    apply expect_length in Q, C. apply scanString_length in B.
    pose proof (skipSpace_length r). pose proof (skipSpace_length r1).
    destruct (parseValue n d (skipSpace r1)) as [v r2| |] eqn:V; try done; simpl.
    + apply Pv in V. pose proof (skipSpace_length r2).
      destruct (expect "," (skipSpace r2)) as [r3|] eqn:E.
      * apply expect_length in E. pose proof (skipSpace_length r3).
        destruct (parseMembers n d (skipSpace r3)) eqn:M; try done.
        apply IHm in M; [done | lia].
      * by destruct (expect "}" (skipSpace r2)).
    + apply IHv in V; [done | lia].
Qed.

(** More fuel does not change what the descent returns. *)
Lemma parse_fuel_more (n : nat) :
  (forall d s m, n <= m -> parseValue n d s <> OutOfFuel ->
     parseValue m d s = parseValue n d s) /\
  (forall d s m, n <= m -> parseElems n d s <> OutOfFuel ->
     parseElems m d s = parseElems n d s) /\
  (forall d s m, n <= m -> parseMembers n d s <> OutOfFuel ->
     parseMembers m d s = parseMembers n d s).
Proof.
  induction n as [|n (IHv & IHe & IHm)]; [by repeat split|].
  split; [|split].
  - intros d s [|m] Hm; [lia|]. assert (n <= m) as Hnm by lia.
    destruct s as [|c t]; [done|]. cbn [parseValue].
    destruct (c =? "{")%char.
    { destruct (maxNestingDepth <=? d)%N; [done|].
      destruct (expect "}" (skipSpace t)); [done|]. intros H.
      rewrite (IHm _ _ m Hnm); [done|]. intros E. by rewrite E in H. }
    destruct (c =? "[")%char; [|done].
    destruct (maxNestingDepth <=? d)%N; [done|].
    destruct (expect "]" (skipSpace t)); [done|]. intros H.
    rewrite (IHe _ _ m Hnm); [done|]. intros E. by rewrite E in H.
  - intros d s [|m] Hm; [lia|]. assert (n <= m) as Hnm by lia.
    cbn [parseElems]. intros H.
    rewrite (IHv _ _ m Hnm); [|intros E; by rewrite E in H].
    destruct (parseValue n d s) as [v r| |]; try done. simpl in *.
    destruct (expect "," (skipSpace r)) as [r'|]; [|done].
    rewrite (IHe _ _ m Hnm); [done|]. intros E. by rewrite E in H.
  - intros d s [|m] Hm; [lia|]. assert (n <= m) as Hnm by lia.
    cbn [parseMembers].
    destruct (expect quote s) as [t|]; [|done].
    destruct (scanString InString t) as [[body r]|]; [|done].
    destruct (expect ":" (skipSpace r)) as [r1|]; [|done]. intros H.
    rewrite (IHv _ _ m Hnm); [|intros E; by rewrite E in H].
    destruct (parseValue n d (skipSpace r1)) as [v r2| |]; try done. simpl in *.
    destruct (expect "," (skipSpace r2)) as [r3|]; [|done].
    rewrite (IHm _ _ m Hnm); [done|]. intros E. by rewrite E in H.
Qed.

(** [parse] gives the descent enough fuel: it returns a value or an
    error, and with more fuel it would return the same. *)
Lemma parse_fuel (data : string) (n : nat) :
  parseValue (fuelFor data) 0 (skipSpace data) <> OutOfFuel /\
  (fuelFor data <= n ->
   parseValue n 0 (skipSpace data) = parseValue (fuelFor data) 0 (skipSpace data)).
Proof.
  assert (parseValue (fuelFor data) 0 (skipSpace data) <> OutOfFuel) as H.
  { apply parse_fuel_enough. unfold fuelFor. pose proof (skipSpace_length data). lia. }
  split; [done|]. intros Hn. by apply parse_fuel_more.
Qed.

(** ** The bytes of an element parse to the element *)

Lemma app_cons_string (c : ascii) (a b : string) : String c a ++ b = String c (a ++ b).
Proof. reflexivity. Qed.

Lemma app_nil_string (a : string) : "" ++ a = a.
Proof. reflexivity. Qed.

Lemma app_assoc_string (a b c : string) : (a ++ b) ++ c = a ++ (b ++ c).
Proof.
  induction a as [|x a IH]; [done|]. by rewrite !app_cons_string, IH.
Qed.

(** String appends are put in the form [a ++ (b ++ c)], with the bytes
    in front pulled out. *)
Ltac norm_app :=
  repeat (rewrite app_cons_string in * || rewrite app_assoc_string in *
          || rewrite app_nil_string in *).


Lemma length_app_string (a b : string) :
  String.length (a ++ b) = String.length a + String.length b.
Proof.
  induction a as [|x a IH]; [done|]. rewrite app_cons_string. simpl. by rewrite IH.
Qed.

Lemma take_app (a b : string) :
  take (String.length (a ++ b) - String.length b) (a ++ b) = a.
Proof.
  rewrite length_app_string. replace (_ + _ - _) with (String.length a) by lia.
  unfold take. induction a as [|x a IH].
  - by destruct b.
  - rewrite app_cons_string. simpl. by rewrite IH.
Qed.

Lemma skipSpace_frame (s : string) :
  exists ws, s = ws ++ skipSpace s /\ forall y, skipSpace (ws ++ y) = skipSpace y.
Proof.
  induction s as [|c t (ws & Hs & Hy)]; [by exists ""|]. simpl.
  destruct (isSpace c) eqn:Sp.
  - exists (String c ws). split.
    + rewrite app_cons_string. by rewrite <- Hs.
    + intros y. rewrite app_cons_string. simpl. by rewrite Sp.
  - by exists "".
Qed.

Lemma expect_inv (c : ascii) (s rest : string) : expect c s = Some rest -> s = String c rest.
Proof.
  destruct s as [|a t]; simpl; [done|]. destruct (a =? c)%char eqn:E; [|done].
  apply Ascii.eqb_eq in E as ->. by intros [= ->].
Qed.

Lemma expect_head (c a : ascii) (y z : string) :
  expect c (String a y) = None -> expect c (String a z) = None.
Proof. simpl. by destruct (a =? c)%char. Qed.

Lemma scanString_frame (st : strState) (s body rest : string) :
  scanString st s = Some (body, rest) ->
  exists raw, s = raw ++ rest /\
    forall rest', scanString st (raw ++ rest') = Some (body, rest').
Proof.
  revert st body. induction s as [|c t IH]; intros st body; simpl; [done|].
  assert (forall st' b, match scanString st' t with
                        | Some (body, rest) => Some (String c body, rest)
                        | None => None
                        end = Some (b, rest) ->
          exists raw, t = raw ++ rest /\
            forall rest', match scanString st' (raw ++ rest') with
                          | Some (body, rest) => Some (String c body, rest)
                          | None => None
                          end = Some (b, rest')) as Hkeep.
  { intros st' b H. destruct (scanString st' t) as [[b' r']|] eqn:E; [|done].
    injection H as <- ->. destruct (IH _ _ E) as (raw & -> & Hraw).
    exists raw. split; [done|]. intros rest'. by rewrite Hraw. }
  assert (forall raw, t = raw ++ rest ->
            String c t = String c raw ++ rest) as Hc by (by intros raw ->).
  destruct st.
  - destruct (c =? quote)%char eqn:Q.
    { intros [= <- ->]. exists (String c ""). split; [done|]. intros rest'.
      rewrite app_cons_string. simpl. by rewrite Q. }
    destruct (c =? backslash)%char eqn:B.
    { intros H. destruct (Hkeep _ _ H) as (raw & Ht & Hraw).
      exists (String c raw). split; [by apply Hc|]. intros rest'.
      rewrite app_cons_string. simpl. by rewrite Q, B. }
    destruct (code c <? 32)%N eqn:L; [done|].
    intros H. destruct (Hkeep _ _ H) as (raw & Ht & Hraw).
    exists (String c raw). split; [by apply Hc|]. intros rest'.
    rewrite app_cons_string. simpl. by rewrite Q, B, L.
  - destruct (isEscape c) eqn:Es.
    { intros H. destruct (Hkeep _ _ H) as (raw & Ht & Hraw).
      exists (String c raw). split; [by apply Hc|]. intros rest'.
      rewrite app_cons_string. simpl. by rewrite Es. }
    destruct (c =? "u")%char eqn:U; [|done].
    intros H. destruct (Hkeep _ _ H) as (raw & Ht & Hraw).
    exists (String c raw). split; [by apply Hc|]. intros rest'.
    rewrite app_cons_string. simpl. by rewrite Es, U.
  - destruct (isHex c) eqn:Hx; [|done].
    intros H. destruct (Hkeep _ _ H) as (raw & Ht & Hraw).
    exists (String c raw). split; [by apply Hc|]. intros rest'.
    rewrite app_cons_string. simpl. by rewrite Hx.
Qed.

Lemma scanNumber_frame (st : numState) (s lit rest : string) :
  scanNumber st s = Some (lit, rest) ->
  s = lit ++ rest /\
  forall rest', follows rest rest' -> scanNumber st (lit ++ rest') = Some (lit, rest').
Proof.
  revert st lit. induction s as [|c t IH]; intros st lit; simpl.
  - destruct (numEnd st) eqn:En; [|done]. intros [= <- <-]. split; [done|].
    intros rest' [->|(c & t & t' & ? & _)]; [|done]. simpl. by rewrite En.
  - destruct (numStep st c) as [st'|] eqn:St.
    + destruct (scanNumber st' t) as [[l r]|] eqn:E; [|done].
      intros [= <- <-]. destruct (IH _ _ E) as (-> & Hl). split; [done|].
      intros rest' Hf. rewrite app_cons_string. simpl. by rewrite St, (Hl _ Hf).
    + destruct (numEnd st) eqn:En; [|done]. intros [= <- <-]. split; [done|].
      intros rest' [->|(c' & t0 & t' & [= <- <-] & ->)]; simpl.
      * by rewrite En.
      * by rewrite St, En.
Qed.

Lemma stripPrefix_frame (p s rest : string) :
  stripPrefix p s = Some rest ->
  s = p ++ rest /\ forall rest', stripPrefix p (p ++ rest') = Some rest'.
Proof.
  revert s. induction p as [|a p IH]; intros s; simpl.
  - by intros [= ->].
  - destruct s as [|b s]; [done|]. destruct (a =? b)%char eqn:E; [|done].
    apply Ascii.eqb_eq in E as <-. intros H. destruct (IH _ H) as (-> & Hp).
    split; [done|]. intros rest'. rewrite ?app_cons_string. simpl.
    by rewrite Ascii.eqb_refl.
Qed.

Lemma parseScalar_frame (s rest : string) (v : Value) :
  parseScalar s = Done v rest ->
  exists raw, s = raw ++ rest /\
    forall rest', follows rest rest' -> parseScalar (raw ++ rest') = Done v rest'.
Proof.
  destruct s as [|c t]; [done|]. unfold parseScalar.
  destruct (c =? quote)%char eqn:Q.
  { destruct (scanString InString t) as [[b r]|] eqn:E; [|done].
    intros [= <- <-]. destruct (scanString_frame _ _ _ _ E) as (raw & -> & Hraw).
    exists (String c raw). split; [done|]. intros rest' _.
    rewrite app_cons_string, Q. by rewrite Hraw. }
  assert (forall word w, literal word w (String c t) = Done v rest -> word <> "" ->
            exists raw c' t', raw = String c' t' /\ String c t = raw ++ rest /\
              forall rest', literal word w (raw ++ rest') = Done v rest') as Hlit.
  { intros word w. unfold literal.
    destruct (stripPrefix word (String c t)) as [r|] eqn:E; [|done].
    intros [= <- <-] Hne. destruct (stripPrefix_frame _ _ _ E) as (Hs & Hp).
    destruct word as [|c' t']; [done|]. exists (String c' t'), c', t'.
    split; [done|]. split; [done|]. intros rest'. by rewrite Hp. }
  destruct (c =? "t")%char eqn:T.
  { intros H. destruct (Hlit _ _ H) as (raw & c' & t' & -> & Hs & Hr); [done|].
    rewrite app_cons_string in Hs. injection Hs as <- ->.
    exists (String c t'). split; [done|]. intros rest' _.
    rewrite app_cons_string, Q, T. rewrite <- app_cons_string. apply Hr. }
  destruct (c =? "f")%char eqn:F.
  { intros H. destruct (Hlit _ _ H) as (raw & c' & t' & -> & Hs & Hr); [done|].
    rewrite app_cons_string in Hs. injection Hs as <- ->.
    exists (String c t'). split; [done|]. intros rest' _.
    rewrite app_cons_string, Q, T, F. rewrite <- app_cons_string. apply Hr. }
  destruct (c =? "n")%char eqn:Nn.
  { intros H. destruct (Hlit _ _ H) as (raw & c' & t' & -> & Hs & Hr); [done|].
    rewrite app_cons_string in Hs. injection Hs as <- ->.
    exists (String c t'). split; [done|]. intros rest' _.
    rewrite app_cons_string, Q, T, F, Nn. rewrite <- app_cons_string. apply Hr. }
  destruct (numStart c) as [st|] eqn:Ns; [|done].
  destruct (scanNumber st t) as [[l r]|] eqn:E; [|done].
  intros [= <- <-]. destruct (scanNumber_frame _ _ _ _ E) as (-> & Hl).
  exists (String c l). split; [done|]. intros rest' Hf.
  rewrite app_cons_string, Q, T, F, Nn, Ns. by rewrite (Hl _ Hf).
Qed.

Lemma parseValue_space (n : nat) (d : N) (c : ascii) (t : string) :
  isSpace c = true -> parseValue n d (String c t) <> Done Null "" /\
  forall v rest, parseValue n d (String c t) <> Done v rest.
Proof.
  intros Sp. assert (forall v rest, parseValue n d (String c t) <> Done v rest) as H.
  { intros v rest. destruct n as [|n]; [done|].
    unfold isSpace in Sp. rewrite !orb_true_iff in Sp.
    destruct Sp as [[[E|E]|E]|E]; apply Ascii.eqb_eq in E as ->; done. }
  split; [apply H | done].
Qed.

(** What the descent reads starts with a byte that is not white space. *)
Lemma parse_head (n : nat) :
  (forall d s v rest, parseValue n d s = Done v rest -> skipSpace s = s) /\
  (forall d s es rest, parseElems n d s = Done es rest -> skipSpace s = s) /\
  (forall d s ms rest, parseMembers n d s = Done ms rest -> skipSpace s = s).
Proof.
  assert (forall m d s v rest, parseValue m d s = Done v rest -> skipSpace s = s) as Hv.
  { intros m d s v rest H. destruct s as [|c t]; [done|]. simpl.
    destruct (isSpace c) eqn:Sp; [|done].
    by destruct (proj2 (parseValue_space m d c t Sp) v rest). }
  split; [apply Hv|]. split.
  - intros d s es rest. destruct n as [|n]; [done|]. cbn [parseElems].
    destruct (parseValue n d s) as [v r| |] eqn:V; try done. intros _. by eapply Hv.
  - intros d s ms rest. destruct n as [|n]; [done|]. cbn [parseMembers].
    destruct (expect quote s) as [t|] eqn:Q; [|done]. intros _.
    by apply expect_inv in Q as ->.
Qed.

Lemma nonempty_prefix (raw rest : string) :
  String.length rest < String.length (raw ++ rest) -> exists c x, raw = String c x.
Proof.
  destruct raw as [|c x]; [rewrite app_nil_string; lia | by exists c, x].
Qed.

Lemma depth_le (d d' : N) :
  (d' <= d)%N -> (maxNestingDepth <=? d)%N = false -> (maxNestingDepth <=? d')%N = false.
Proof. rewrite !N.leb_gt. lia. Qed.

(** What the descent reads does not depend on what follows it (but for
    the byte that ends a number), nor on a smaller depth. *)
Lemma parse_frame (n : nat) :
  (forall d s v rest, parseValue n d s = Done v rest ->
     exists raw, s = raw ++ rest /\
       forall d' rest', (d' <= d)%N -> follows rest rest' ->
         parseValue n d' (raw ++ rest') = Done v rest') /\
  (forall d s es rest, parseElems n d s = Done es rest ->
     exists raw, s = raw ++ rest /\
       forall d' rest', (d' <= d)%N -> parseElems n d' (raw ++ rest') = Done es rest') /\
  (forall d s ms rest, parseMembers n d s = Done ms rest ->
     exists raw, s = raw ++ rest /\
       forall d' rest', (d' <= d)%N -> parseMembers n d' (raw ++ rest') = Done ms rest').
Proof.
  induction n as [|n (IHv & IHe & IHm)]; [done|].
  pose proof (parse_progress n) as (Pv & Pe & Pm).
  pose proof (parse_head n) as (Hv & He & Hm).
  split; [|split].
  - intros d s v rest. destruct s as [|c t]; [done|]. cbn [parseValue].
    destruct (skipSpace_frame t) as (ws & Ht & Hws).
    destruct (c =? "{")%char eqn:Cb.
    { destruct (maxNestingDepth <=? d)%N eqn:D; [done|].
      destruct (expect "}" (skipSpace t)) as [r|] eqn:E.
      - intros [= <- <-]. apply expect_inv in E. rewrite E in Ht.
        exists (String c (ws ++ "}")). split.
        { norm_app. by rewrite <- Ht. }
        intros d' rest' Hd _. norm_app.
        cbn [parseValue]. rewrite Cb, (depth_le _ _ Hd D), Hws. done.
      - destruct (parseMembers n (d + 1) (skipSpace t)) as [ms r| |] eqn:M; try done.
        simpl. intros [= <- <-].
        destruct (IHm _ _ _ _ M) as (raw & Hraw & Hre). apply Pm in M.
        rewrite Hraw in *. destruct (nonempty_prefix _ _ M) as (a & x & ->).
        exists (String c (ws ++ String a x)). split.
        { norm_app. by rewrite <- Ht. }
        intros d' rest' Hd _.
        assert (d' + 1 <= d + 1)%N as Hd1 by lia.
        pose proof (Hre _ rest' Hd1) as R. pose proof (Hm _ _ _ _ R) as R'.
        norm_app. cbn [parseValue].
        rewrite Cb, (depth_le _ _ Hd D), Hws, R', (expect_head _ _ _ _ E), R.
        done. }
    destruct (c =? "[")%char eqn:Ck.
    { destruct (maxNestingDepth <=? d)%N eqn:D; [done|].
      destruct (expect "]" (skipSpace t)) as [r|] eqn:E.
      - intros [= <- <-]. apply expect_inv in E. rewrite E in Ht.
        exists (String c (ws ++ "]")). split.
        { norm_app. by rewrite <- Ht. }
        intros d' rest' Hd _. norm_app.
        cbn [parseValue]. rewrite Cb, Ck, (depth_le _ _ Hd D), Hws. done.
      - destruct (parseElems n (d + 1) (skipSpace t)) as [es r| |] eqn:M; try done.
        simpl. intros [= <- <-].
        destruct (IHe _ _ _ _ M) as (raw & Hraw & Hre). apply Pe in M.
        rewrite Hraw in *. destruct (nonempty_prefix _ _ M) as (a & x & ->).
        exists (String c (ws ++ String a x)). split.
        { norm_app. by rewrite <- Ht. }
        intros d' rest' Hd _.
        assert (d' + 1 <= d + 1)%N as Hd1 by lia.
        pose proof (Hre _ rest' Hd1) as R. pose proof (He _ _ _ _ R) as R'.
        norm_app. cbn [parseValue].
        rewrite Cb, Ck, (depth_le _ _ Hd D), Hws, R', (expect_head _ _ _ _ E), R.
        done. }
    intros H. pose proof (parseScalar_length _ _ _ H) as L.
    destruct (parseScalar_frame _ _ _ H) as (raw & Hraw & Hre).
    rewrite Hraw in L. destruct (nonempty_prefix _ _ L) as (a & x & ->).
    rewrite app_cons_string in Hraw. injection Hraw as <- ->.
    exists (String c x). split; [done|]. intros d' rest' _ Hf.
    pose proof (Hre _ Hf) as R.
    norm_app. cbn [parseValue]. by rewrite Cb, Ck.
  - intros d s es rest. cbn [parseElems].
    destruct (parseValue n d s) as [v r| |] eqn:V; try done. simpl.
    destruct (IHv _ _ _ _ V) as (rawv & -> & Hrv).
    destruct (skipSpace_frame r) as (ws & Hr & Hws).
    destruct (expect "," (skipSpace r)) as [r1|] eqn:E.
    + destruct (parseElems n d (skipSpace r1)) as [es' r2| |] eqn:M; try done.
      simpl. intros [= <- <-].
      destruct (IHe _ _ _ _ M) as (rawe & Hrawe & Hre).
      destruct (skipSpace_frame r1) as (ws1 & Hr1 & Hws1).
      apply expect_inv in E. rewrite E in Hr. rewrite Hrawe in Hr1.
      exists (rawv ++ ws ++ String "," (ws1 ++ rawe)). split.
      { norm_app. by rewrite <- Hr1, <- Hr. }
      intros d' rest' Hd.
      pose proof (Hre _ rest' Hd) as R. pose proof (He _ _ _ _ R) as R'.
      assert (follows r (ws ++ String "," (ws1 ++ rawe ++ rest'))) as Hf.
      { rewrite Hr. clear. destruct ws as [|a ws]; right; norm_app; by eexists _, _, _. }
      pose proof (Hrv d' _ Hd Hf) as Rv.
      norm_app. cbn [parseElems]. rewrite Rv. simpl.
      rewrite !take_app, Hws. simpl. by rewrite Hws1, R', R.
    + destruct (expect "]" (skipSpace r)) as [r1|] eqn:E'; [|done].
      intros [= <- <-]. apply expect_inv in E'. rewrite E' in Hr.
      exists (rawv ++ ws ++ "]"). split.
      { norm_app. by rewrite <- Hr. }
      intros d' rest' Hd.
      assert (follows r (ws ++ String "]" rest')) as Hf.
      { rewrite Hr. clear. destruct ws as [|a ws]; right; norm_app; by eexists _, _, _. }
      pose proof (Hrv d' _ Hd Hf) as Rv.
      norm_app. cbn [parseElems]. rewrite Rv. simpl.
      by rewrite !take_app, Hws.
  - intros d s ms rest. cbn [parseMembers].
    destruct (expect quote s) as [t|] eqn:Q; [|done].
    destruct (scanString InString t) as [[body r]|] eqn:B; [|done].
    destruct (expect ":" (skipSpace r)) as [r1|] eqn:C; [|done].
    destruct (parseValue n d (skipSpace r1)) as [v r2| |] eqn:V; try done. simpl.
    apply expect_inv in Q as ->. apply expect_inv in C.
    destruct (scanString_frame _ _ _ _ B) as (rawb & -> & Hrb).
    destruct (skipSpace_frame r) as (ws & Hr & Hws). rewrite C in Hr.
    destruct (skipSpace_frame r1) as (ws1 & Hr1 & Hws1).
    destruct (IHv _ _ _ _ V) as (rawv & Hrawv & Hrv). rewrite Hrawv in Hr1.
    destruct (skipSpace_frame r2) as (ws2 & Hr2 & Hws2).
    destruct (expect "," (skipSpace r2)) as [r3|] eqn:E.
    + destruct (parseMembers n d (skipSpace r3)) as [ms' r4| |] eqn:M; try done.
      simpl. intros [= <- <-].
      destruct (IHm _ _ _ _ M) as (rawm & Hrawm & Hrm).
      destruct (skipSpace_frame r3) as (ws3 & Hr3 & Hws3).
      apply expect_inv in E. rewrite E in Hr2. rewrite Hrawm in Hr3.
      exists (String quote (rawb ++ ws ++ String ":" (ws1 ++ rawv ++ ws2
                ++ String "," (ws3 ++ rawm)))).
      split.
      { norm_app. by rewrite <- Hr3, <- Hr2, <- Hr1, <- Hr. }
      intros d' rest' Hd.
      pose proof (Hrm _ rest' Hd) as R. pose proof (Hm _ _ _ _ R) as R'.
      assert (follows r2 (ws2 ++ String "," (ws3 ++ rawm ++ rest'))) as Hf.
      { rewrite Hr2. clear. destruct ws2 as [|a ws2]; right; norm_app; by eexists _, _, _. }
      pose proof (Hrv d' _ Hd Hf) as Rv. pose proof (Hv _ _ _ _ Rv) as Rv'.
      norm_app. cbn [parseMembers]. simpl expect. cbv beta iota. rewrite Hrb, Hws.
      simpl. rewrite Hws1, Rv', Rv. simpl. rewrite Hws2. simpl.
      by rewrite Hws3, R', R.
    + destruct (expect "}" (skipSpace r2)) as [r3|] eqn:E'; [|done].
      intros [= <- <-]. apply expect_inv in E'. rewrite E' in Hr2.
      exists (String quote (rawb ++ ws ++ String ":" (ws1 ++ rawv ++ ws2 ++ "}"))).
      split.
      { norm_app. by rewrite <- Hr2, <- Hr1, <- Hr. }
      intros d' rest' Hd.
      assert (follows r2 (ws2 ++ String "}" rest')) as Hf.
      { rewrite Hr2. clear. destruct ws2 as [|a ws2]; right; norm_app; by eexists _, _, _. }
      pose proof (Hrv d' _ Hd Hf) as Rv. pose proof (Hv _ _ _ _ Rv) as Rv'.
      norm_app. cbn [parseMembers]. simpl expect. cbv beta iota. rewrite Hrb, Hws.
      simpl. rewrite Hws1, Rv', Rv. simpl. by rewrite Hws2.
Qed.

Lemma app_nil_r_string (a : string) : a ++ "" = a.
Proof. induction a as [|c a IH]; [done|]. by rewrite app_cons_string, IH. Qed.

(** The bytes that a value was read from parse to that value. *)
Lemma parseValue_reparse (n : nat) (d : N) (s rest : string) (v : Value) :
  parseValue n d s = Done v rest ->
  exists raw, s = raw ++ rest /\ parse raw = Some v.
Proof.
  intros H. destruct (proj1 (parse_frame n) _ _ _ _ H) as (raw & Hs & Hre).
  exists raw. split; [done|].
  assert (parseValue n 0 raw = Done v "") as R.
  { rewrite <- (app_nil_r_string raw) at 1. apply Hre; [lia | by left]. }
  pose proof (proj1 (parse_head n) _ _ _ _ R) as Hsp.
  unfold parse. rewrite Hsp.
  assert (parseValue (fuelFor raw) 0 raw = Done v "") as ->; [|done].
  assert (parseValue (fuelFor raw) 0 raw <> OutOfFuel) as F.
  { apply parse_fuel_enough. unfold fuelFor. lia. }
  destruct (Nat.le_ge_cases n (fuelFor raw)) as [L|L].
  - rewrite (proj1 (parse_fuel_more n) _ _ _ L); [done | by rewrite R].
  - by rewrite <- (proj1 (parse_fuel_more (fuelFor raw)) _ _ _ L F).
Qed.

Lemma parse_coherent_at (n : nat) :
  (forall d s v rest, parseValue n d s = Done v rest -> arrayCoherent v) /\
  (forall d s es rest, parseElems n d s = Done es rest ->
     Forall (fun e => parse (fst e) = Some (snd e)) es) /\
  (forall d s ms rest, parseMembers n d s = Done ms rest ->
     Forall (fun m => arrayCoherent (snd m)) ms).
Proof.
  induction n as [|n (IHv & IHe & IHm)]; [done|].
  split; [|split].
  - intros d s v rest. destruct s as [|c t]; [done|]. cbn [parseValue].
    destruct (c =? "{")%char.
    { destruct (maxNestingDepth <=? d)%N; [done|].
      destruct (expect "}" (skipSpace t)); [by intros [= <- _]|].
      destruct (parseMembers n (d + 1) (skipSpace t)); try done.
      simpl. by intros [= <- _]. }
    destruct (c =? "[")%char.
    { destruct (maxNestingDepth <=? d)%N; [done|].
      destruct (expect "]" (skipSpace t)); [intros [= <- _]; constructor|].
      destruct (parseElems n (d + 1) (skipSpace t)) eqn:M; try done.
      simpl. intros [= <- _]. simpl. by eapply IHe. }
    unfold parseScalar, literal. intros H.
    repeat case_match; try done; by injection H as <- _.
  - intros d s es rest. cbn [parseElems].
    destruct (parseValue n d s) as [v r| |] eqn:V; try done. simpl.
    destruct (parseValue_reparse _ _ _ _ _ V) as (raw & -> & Hraw).
    rewrite take_app.
    destruct (expect "," (skipSpace r)) as [r1|].
    + destruct (parseElems n d (skipSpace r1)) as [es' r2| |] eqn:M; try done.
      simpl. intros [= <- _]. constructor; [done | by eapply IHe].
    + destruct (expect "]" (skipSpace r)); [|done].
      intros [= <- _]. by repeat constructor.
  - intros d s ms rest. cbn [parseMembers].
    destruct (expect quote s) as [t|]; [|done].
    destruct (scanString InString t) as [[body r]|]; [|done].
    destruct (expect ":" (skipSpace r)) as [r1|]; [|done].
    destruct (parseValue n d (skipSpace r1)) as [v r2| |] eqn:V; try done. simpl.
    apply IHv in V.
    destruct (expect "," (skipSpace r2)) as [r3|].
    + destruct (parseMembers n d (skipSpace r3)) as [ms' r4| |] eqn:M; try done.
      simpl. intros [= <- _]. constructor; [done | by eapply IHm].
    + destruct (expect "}" (skipSpace r2)); [|done].
      intros [= <- _]. by repeat constructor.
Qed.

(** In the tree of a text, the bytes kept with an array element parse
    to the element. *)
Lemma parse_coherent (data : string) (ms : list (string * Value)) :
  parse data = Some (Object ms) -> Forall (fun m => arrayCoherent (snd m)) ms.
Proof.
  unfold parse.
  destruct (parseValue (fuelFor data) 0 (skipSpace data)) as [v r| |] eqn:V; try done.
  destruct (skipSpace r); [|done]. intros [= ->].
  destruct (fuelFor data) as [|n]; [done|].
  destruct (skipSpace data) as [|c t]; [done|]. cbn [parseValue] in V.
  destruct (c =? "{")%char.
  { destruct (maxNestingDepth <=? 0)%N; [done|].
    destruct (expect "}" (skipSpace t)); [injection V as <- _; constructor|].
    destruct (parseMembers n (0 + 1) (skipSpace t)) eqn:M; try done.
    simpl in V. injection V as <- _. by eapply (parse_coherent_at n). }
  destruct (c =? "[")%char.
  { destruct (maxNestingDepth <=? 0)%N; [done|].
    destruct (expect "]" (skipSpace t)); [done|].
    by destruct (parseElems n (0 + 1) (skipSpace t)). }
  unfold parseScalar, literal in V.
  repeat case_match; done.
Qed.

(** ** The decoder of [encoding/json] *)

Lemma decodeMembers_app {T : Type} (setField : string -> Value -> T -> decoded T)
    (ms1 ms2 : list (string * Value)) (t : T) (saved : option error) :
  decodeMembers setField (ms1 ++ ms2) t saved =
  match decodeMembers setField ms1 t saved with
  | Stored t' saved' => decodeMembers setField ms2 t' saved'
  | Aborted err => Aborted err
  end.
Proof.
  revert t saved. induction ms1 as [|[key v] ms1 IH]; intros t saved; simpl; [done|].
  destruct (setField key v t); [apply IH | done].
Qed.

Lemma index_Some (p : string -> bool) (names : list string) (i : nat) :
  index p names = Some i -> exists n, names !! i = Some n /\ p n = true.
Proof.
  revert i. induction names as [|n names IH]; intros i; simpl; [done|].
  destruct (p n) eqn:P.
  - intros [= <-]. by exists n.
  - destruct (index p names) as [j|]; simpl; [|done].
    intros [= <-]. by apply IH.
Qed.

Lemma findField_selects (names : list string) (key : string) (i : nat) :
  findField names key = Some i ->
  exists n, names !! i = Some n /\ selects n key = true.
Proof.
  unfold findField. destruct (index (String.eqb key) names) as [j|] eqn:E.
  - intros [= <-]. apply index_Some in E as (n & Hn & Heq).
    apply String.eqb_eq in Heq as <-. exists key. split; [done|].
    unfold selects. apply String.eqb_refl.
  - intros H. apply index_Some in H as (n & Hn & Heq). by exists n.
Qed.

Lemma Unmarshal_parsed {T : Type} (setField : string -> Value -> T -> decoded T)
    (data : string) (v : Value) (t : T) :
  parse data = Some v ->
  Unmarshal setField data t =
  match decodeStruct setField v t with
  | Stored t' saved => (t', saved)
  | Aborted err => (t, Some err)
  end.
Proof. intros H. unfold Unmarshal. by rewrite H. Qed.

(** ** The two [UnmarshalJSON] methods, case by case *)

Lemma Result_UnmarshalJSON_ok (r r' : Result.t) (data : string) :
  Result.UnmarshalJSON r data = (r', None) ->
  exists result,
    Unmarshal Result.result.setField data Result.result.zero = (result, None) /\
    r' = Result.mk (Result.result.MessageID result) (Result.result.RegistrationID result)
           (if (Result.result.Error result =? "")%string then Result.Error r
            else Some (classify (Result.result.Error result))).
Proof.
  unfold Result.UnmarshalJSON.
  destruct (Unmarshal _ data _) as [result [err|]]; [done|].
  intros [= <-]. exists result. split; [done|].
  by destruct (Result.result.Error result =? "")%string.
Qed.

Lemma Result_UnmarshalJSON_err (r r' : Result.t) (data : string) (err : error) :
  Result.UnmarshalJSON r data = (r', Some err) -> r' = r.
Proof.
  unfold Result.UnmarshalJSON.
  destruct (Unmarshal _ data _) as [result [e|]]; [|done].
  by intros [= <- _].
Qed.

Lemma Response_UnmarshalJSON_ok (r r' : Response.t) (data : string) :
  Response.UnmarshalJSON r data = (r', None) ->
  exists response,
    Unmarshal Response.response.setField data Response.response.zero = (response, None) /\
    r' = Response.mk
           (Response.response.MulticastID response) (Response.response.Success response)
           (Response.response.Failure response) (Response.response.CanonicalIDs response)
           (Response.response.Results response)
           (Response.response.FailedRegistrationIDs response)
           (Response.response.MessageID response)
           (if (Response.response.Error response =? "")%string then Response.Error r
            else Some (classify (Response.response.Error response))).
Proof.
  unfold Response.UnmarshalJSON.
  destruct (Unmarshal _ data _) as [response [err|]]; [done|].
  intros [= <-]. exists response. split; [done|].
  by destruct (Response.response.Error response =? "")%string.
Qed.

Lemma Response_UnmarshalJSON_err (r r' : Response.t) (data : string) (err : error) :
  Response.UnmarshalJSON r data = (r', Some err) -> r' = r.
Proof.
  unfold Response.UnmarshalJSON.
  destruct (Unmarshal _ data _) as [response [e|]]; [|done].
  by intros [= <- _].
Qed.

(** ** Values that fit are stored, values that do not give a type error *)

Lemma decodeInt_outcome (bitSize : Z) (v : Value) (old : Z) :
  outcome (fitsInt bitSize v)
    (Stored (fst (decodeInt bitSize v old)) (snd (decodeInt bitSize v old))).
Proof.
  destruct v; simpl; try done; try (split; [done | by eexists]).
  destruct (ParseInt lit bitSize); simpl; [done|]. split; [done | by eexists].
Qed.

Lemma decodeString_outcome (v : Value) (old : string) :
  outcome (fitsString v) (Stored (fst (decodeString v old)) (snd (decodeString v old))).
Proof. destruct v; simpl; try done; (split; [done | by eexists]). Qed.

Lemma decodeMembers_outcome {T : Type} (setField : string -> Value -> T -> decoded T)
    (fits : string -> Value -> bool) (P : Value -> Prop) :
  (forall key v x, P v -> outcome (fits key v) (setField key v x)) ->
  forall ms x saved, Forall (fun m => P (snd m)) ms ->
  match saved with Some err => isTypeError err | None => True end ->
  outcome (match saved with Some _ => false | None => true end
           && forallb (fun m => fits (fst m) (snd m)) ms)
          (decodeMembers setField ms x saved).
Proof.
  intros Hset ms. induction ms as [|[key v] ms IH]; intros x saved HP Hsaved; simpl.
  - destruct saved; [by split | done].
  - inversion HP as [|? ? Hv HP']; subst. specialize (Hset key v x Hv).
    destruct (setField key v x) as [x' [err|]|err]; simpl in Hset.
    + destruct Hset as [-> Herr].
      assert (match saveError saved (Some err) with
              | Some e => isTypeError e | None => True end) as Hs.
      { by destruct saved. }
      specialize (IH x' _ HP' Hs).
      replace (match saved with Some _ => false | None => true end && (false && _))
        with (match saveError saved (Some err) with Some _ => false | None => true end
              && forallb (fun m => fits (fst m) (snd m)) ms); [done|].
      by destruct saved.
    + rewrite Hset. specialize (IH x' _ HP' Hsaved). simpl in *.
      by destruct saved.
    + destruct Hset as [-> Herr]. simpl. split; [by rewrite andb_false_r | done].
Qed.

Lemma decodeStruct_outcome {T : Type} (setField : string -> Value -> T -> decoded T)
    (fits : string -> Value -> bool) (P : Value -> Prop) :
  (forall key v x, P v -> outcome (fits key v) (setField key v x)) ->
  forall v x, (forall ms, v = Object ms -> Forall (fun m => P (snd m)) ms) ->
  outcome (fitsStruct fits v) (decodeStruct setField v x).
Proof.
  intros Hset v x HP. destruct v; simpl; try done; try (split; [done | by eexists]).
  apply (decodeMembers_outcome setField fits P Hset members x None); [by apply HP | done].
Qed.

Lemma decodeElems_outcome {A : Type} (zero : A) (elem : string * Value -> A -> decoded A)
    (fits : string * Value -> bool) (Q : string * Value -> Prop) :
  (forall e old, Q e -> outcome (fits e) (elem e old)) ->
  forall es old done saved, Forall Q es ->
  match saved with Some err => isTypeError err | None => True end ->
  outcome (match saved with Some _ => false | None => true end && forallb fits es)
          (decodeElems zero elem es old done saved).
Proof.
  intros Helem es. induction es as [|e es IH]; intros old done saved HQ Hsaved; simpl.
  - destruct saved; [by split | done].
  - inversion HQ as [|? ? He HQ']; subst. specialize (Helem e (hd zero old) He).
    destruct (elem e (hd zero old)) as [a [err|]|err]; simpl in Helem.
    + destruct Helem as [-> Herr].
      assert (match saveError saved (Some err) with
              | Some e => isTypeError e | None => True end) as Hs.
      { by destruct saved. }
      specialize (IH (tl old) (done ++ [a])%list _ HQ' Hs).
      replace (match saved with Some _ => false | None => true end && (false && _))
        with (match saveError saved (Some err) with Some _ => false | None => true end
              && forallb fits es); [done|].
      by destruct saved.
    + rewrite Helem. specialize (IH (tl old) (done ++ [a])%list _ HQ' Hsaved). simpl in *.
      by destruct saved.
    + destruct Helem as [-> Herr]. simpl. split; [by rewrite andb_false_r | done].
Qed.

Lemma decodeSlice_outcome {A : Type} (zero : A) (elem : string * Value -> A -> decoded A)
    (fits : string * Value -> bool) (Q : string * Value -> Prop) :
  (forall e old, Q e -> outcome (fits e) (elem e old)) ->
  forall v old, (forall es, v = Array es -> Forall Q es) ->
  outcome (fitsSlice fits v) (decodeSlice zero elem v old).
Proof.
  intros Helem v old HQ. destruct v as [| | | |es|]; simpl; try done;
    try (split; [done | by eexists]).
  destruct es as [|e es]; [done|].
  pose proof (decodeElems_outcome zero elem fits Q Helem (e :: es) (backing old) [] None
                (HQ _ eq_refl) I) as H.
  simpl in H. simpl.
  destruct (match elem e (hd zero (backing old)) with
            | Stored a err => _ | Aborted err => _ end) as [[its sp] [err|]|err]; done.
Qed.

Lemma result_setField_outcome (key : string) (v : Value) (x : Result.result.t) :
  True -> outcome (Result.fits key v) (Result.result.setField key v x).
Proof.
  intros _. unfold Result.fits, Result.result.setField.
  destruct (findField Result.result.names key) as [[|[|[|i]]]|]; try (simpl; done);
    match goal with
    | |- context [decodeString v ?old] =>
      pose proof (decodeString_outcome v old) as Hs;
      by destruct (decodeString v old) as [s [err|]]
    end.
Qed.

(** [Result.UnmarshalJSON] on a text that parses: no error when the
    value is well typed, a type error when it is not. *)
Lemma Result_UnmarshalJSON_outcome (r : Result.t) (data : string) (v : Value) :
  parse data = Some v ->
  match snd (Result.UnmarshalJSON r data) with
  | None => Result.wellTyped v = true
  | Some err => Result.wellTyped v = false /\ isTypeError err
  end.
Proof.
  intros P. unfold Result.UnmarshalJSON. rewrite (Unmarshal_parsed _ _ _ _ P).
  pose proof (decodeStruct_outcome _ _ (fun _ => True) result_setField_outcome v
                Result.result.zero) as H.
  unfold Result.wellTyped.
  destruct (decodeStruct Result.result.setField v Result.result.zero)
    as [x' [err|]|err]; simpl in *; apply H; intros ms _; by apply Forall_forall.
Qed.

Lemma Result_elem_outcome (e : string * Value) (old : Result.t) :
  parse (fst e) = Some (snd e) -> outcome (Result.wellTyped (snd e)) (Result.elem e old).
Proof.
  intros P. pose proof (Result_UnmarshalJSON_outcome old _ _ P) as H. unfold Result.elem.
  by destruct (Result.UnmarshalJSON old (fst e)) as [a [err|]].
Qed.

Lemma stringElem_outcome (e : string * Value) (old : string) :
  True -> outcome (fitsString (snd e)) (stringElem e old).
Proof.
  intros _. unfold stringElem. pose proof (decodeString_outcome (snd e) old) as H.
  by destruct (decodeString (snd e) old) as [s [err|]].
Qed.

Lemma response_setField_outcome (key : string) (v : Value) (x : Response.response.t) :
  arrayCoherent v -> outcome (Response.fits key v) (Response.response.setField key v x).
Proof.
  intros Hco. unfold Response.fits, Response.response.setField.
  destruct (findField Response.response.names key) as [[|[|[|[|[|[|[|[|i]]]]]]]]|];
    try (simpl; done);
    try match goal with
    | |- context [decodeInt ?b v ?old] =>
      pose proof (decodeInt_outcome b v old) as Hs;
      by destruct (decodeInt b v old) as [n [err|]]
    | |- context [decodeString v ?old] =>
      pose proof (decodeString_outcome v old) as Hs;
      by destruct (decodeString v old) as [s [err|]]
    end.
  - pose proof (decodeSlice_outcome Result.zero Result.elem
                  (fun e => Result.wellTyped (snd e)) _ Result_elem_outcome v
                  (Response.response.Results x)) as H.
    destruct (decodeSlice Result.zero Result.elem v _) as [s [err|]|err];
      apply H; by intros es ->.
  - pose proof (decodeSlice_outcome EmptyString stringElem
                  (fun e => fitsString (snd e)) _ stringElem_outcome v
                  (Response.response.FailedRegistrationIDs x)) as H.
    destruct (decodeSlice EmptyString stringElem v _) as [s [err|]|err];
      apply H; intros es _; by apply Forall_forall.
Qed.

(** [Response.UnmarshalJSON] on a text that parses: no error when the
    value is well typed, a type error when it is not. *)
Lemma Response_UnmarshalJSON_outcome (r : Response.t) (data : string) (v : Value) :
  parse data = Some v ->
  match snd (Response.UnmarshalJSON r data) with
  | None => Response.wellTyped v = true
  | Some err => Response.wellTyped v = false /\ isTypeError err
  end.
Proof.
  intros P. unfold Response.UnmarshalJSON. rewrite (Unmarshal_parsed _ _ _ _ P).
  pose proof (decodeStruct_outcome _ _ arrayCoherent response_setField_outcome v
                Response.response.zero) as H.
  unfold Response.wellTyped.
  destruct (decodeStruct Response.response.setField v Response.response.zero)
    as [x' [err|]|err]; simpl in *; apply H; intros ms ->; by apply (parse_coherent data).
Qed.

Lemma UnmarshalJSON_syntax (r : Response.t) (x : Result.t) (data : string) :
  parse data = None ->
  snd (Response.UnmarshalJSON r data) = Some SyntaxError /\
  snd (Result.UnmarshalJSON x data) = Some SyntaxError.
Proof.
  intros P. unfold Response.UnmarshalJSON, Result.UnmarshalJSON, Unmarshal.
  by rewrite P.
Qed.

Lemma outcome_true {A : Type} (d : decoded A) :
  outcome true d -> exists a, d = Stored a None.
Proof. destruct d as [a [err|]|err]; simpl; [by intros [? _] | by exists a | by intros [? _]]. Qed.

(** Members that fit the fields they select are stored without an
    error. *)
Lemma response_decodeMembers_fits (ms : list (string * Value)) (x : Response.response.t) :
  forallb (fun m => Response.fits (fst m) (snd m)) ms = true ->
  Forall (fun m => arrayCoherent (snd m)) ms ->
  exists x', decodeMembers Response.response.setField ms x None = Stored x' None.
Proof.
  intros Hfit Hco. apply outcome_true. rewrite <- Hfit.
  by apply (decodeMembers_outcome _ _ arrayCoherent response_setField_outcome ms x None).
Qed.

Lemma Result_wellTyped_ok (r : Result.t) (data : string) (v : Value) :
  parse data = Some v -> Result.wellTyped v = true ->
  snd (Result.UnmarshalJSON r data) = None.
Proof.
  intros P W. pose proof (Result_UnmarshalJSON_outcome r data v P) as H.
  destruct (snd (Result.UnmarshalJSON r data)); [|done]. destruct H. congruence.
Qed.

Lemma Response_wellTyped_ok (r : Response.t) (data : string) (v : Value) :
  parse data = Some v -> Response.wellTyped v = true ->
  snd (Response.UnmarshalJSON r data) = None.
Proof.
  intros P W. pose proof (Response_UnmarshalJSON_outcome r data v P) as H.
  destruct (snd (Response.UnmarshalJSON r data)); [|done]. destruct H. congruence.
Qed.

(** ** Which field a key selects *)

Lemma response_findField (i : nat) (name key : string) :
  Response.response.names !! i = Some name -> selects name key = true ->
  findField Response.response.names key = Some i.
Proof.
  intros Hi Hsel. unfold selects in Hsel. apply String.eqb_eq in Hsel.
  unfold findField.
  destruct (index (String.eqb key) Response.response.names) as [j|] eqn:E.
  - apply index_Some in E as (n & Hj & Heq). apply String.eqb_eq in Heq as <-.
    do 8 (destruct i as [|i]; [injection Hi as <-;
      do 8 (destruct j as [|j]; [by injection Hj as <-|]); done|]).
    done.
  - rewrite <- Hsel.
    do 8 (destruct i as [|i]; [by injection Hi as <-|]). done.
Qed.

Lemma response_setField_frame (key : string) (v : Value) (x x' : Response.response.t)
    (err : option error) :
  Response.response.setField key v x = Stored x' err ->
  forall i, findField Response.response.names key <> Some i ->
  Response.response.sameField i x' x.
Proof.
  unfold Response.response.setField.
  destruct (findField Response.response.names key) as [[|[|[|[|[|[|[|[|j]]]]]]]]|];
    try match goal with
    | |- context [decodeInt ?b v ?old] => destruct (decodeInt b v old)
    | |- context [decodeString v ?old] => destruct (decodeString v old)
    | |- context [decodeSlice ?z ?e v ?old] => destruct (decodeSlice z e v old)
    end;
    intros [= <- <-] i Hi;
    do 8 (destruct i as [|i]; [done|]); done.
Qed.

Lemma response_decodeMembers_frame (ms : list (string * Value))
    (x x' : Response.response.t) (saved saved' : option error) :
  decodeMembers Response.response.setField ms x saved = Stored x' saved' ->
  forall i name, Response.response.names !! i = Some name -> hasKey name ms = false ->
  Response.response.sameField i x' x.
Proof.
  revert x saved. induction ms as [|[key v] ms IH]; intros x saved; simpl.
  - intros [= <- _] i name _ _. by do 8 (destruct i as [|i]; [done|]).
  - destruct (Response.response.setField key v x) as [x1 err|] eqn:E; [|done].
    intros Hms i name Hi [Hsel Hhas]%orb_false_iff.
    pose proof (IH _ _ Hms i name Hi Hhas) as H1.
    assert (findField Response.response.names key <> Some i) as Hne.
    { intros Hf. apply findField_selects in Hf as (n & Hn & Hs).
      rewrite Hi in Hn. injection Hn as <-. simpl in Hsel. congruence. }
    pose proof (response_setField_frame _ _ _ _ _ E i Hne) as H2.
    do 8 (destruct i as [|i]; [simpl in *; congruence|]). done.
Qed.

(** ** The results array *)

Lemma saveError_None (saved : option error) : saveError saved None = saved.
Proof. by destruct saved. Qed.

(** Into a slice without a backing array every element is decoded from
    the zero [Result], in the order of the array. *)
Lemma decodeElems_fresh (es : list (string * Value)) (done : list Result.t)
    (saved : option error) :
  Forall (fun e => snd (Result.UnmarshalJSON Result.zero (fst e)) = None) es ->
  decodeElems Result.zero Result.elem es [] done saved =
  Stored ((done ++ map (fun e => fst (Result.UnmarshalJSON Result.zero (fst e))) es)%list, [])
         saved.
Proof.
  intros H. revert done saved.
  induction H as [|e es He Hes IH]; intros done saved; simpl.
  - by rewrite app_nil_r.
  - unfold Result.elem at 1. simpl.
    destruct (Result.UnmarshalJSON Result.zero (fst e)) as [a err]. simpl in He.
    subst err. simpl. rewrite IH, saveError_None. by rewrite <- app_assoc.
Qed.

Lemma decodeSlice_fresh (es : list (string * Value)) :
  Forall (fun e => snd (Result.UnmarshalJSON Result.zero (fst e)) = None) es ->
  decodeSlice Result.zero Result.elem (Array es) nil_slice =
  Stored (mk_slice (map (fun e => fst (Result.UnmarshalJSON Result.zero (fst e))) es) [])
         None.
Proof.
  intros H. destruct es as [|e es]; [done|].
  unfold decodeSlice. simpl backing. by rewrite (decodeElems_fresh _ _ _ H).
Qed.

Lemma forallb_app_true {A : Type} (f : A -> bool) (l1 l2 : list A) :
  forallb f (l1 ++ l2) = true -> forallb f l1 = true /\ forallb f l2 = true.
Proof. rewrite forallb_app. apply andb_true_iff. Qed.

Lemma hasKey_app_false (name : string) (ms1 ms2 : list (string * Value)) :
  hasKey name (ms1 ++ ms2) = false -> hasKey name ms1 = false /\ hasKey name ms2 = false.
Proof. unfold hasKey. rewrite existsb_app. apply orb_false_iff. Qed.

Lemma Forall_app_inv {A : Type} (P : A -> Prop) (l1 l2 : list A) :
  Forall P (l1 ++ l2)%list -> Forall P l1 /\ Forall P l2.
Proof. apply Forall_app. Qed.

Lemma results_member_in_order (data key : string) (pre post es : list (string * Value))
    (r : Response.t) :
  parse data = Some (Object (pre ++ (key, Array es) :: post)) ->
  selects "results" key = true ->
  hasKey "results" (pre ++ post) = false ->
  forallb (fun m => Response.fits (fst m) (snd m)) (pre ++ post) = true ->
  forallb (fun e => Result.wellTyped (snd e)) es = true ->
  Forall (fun e => snd (Result.UnmarshalJSON Result.zero (fst e)) = None) es /\
  exists r', Response.UnmarshalJSON r data = (r', None) /\
    items (Response.Results r') =
    map (fun e => fst (Result.UnmarshalJSON Result.zero (fst e))) es.
Proof.
  intros P Hsel [Hpre Hpost]%hasKey_app_false [Fpre Fpost]%forallb_app_true Hty.
  pose proof (parse_coherent _ _ P) as Hco.
  apply Forall_app_inv in Hco as [Cpre Hco].
  inversion Hco as [|? ? Ces Cpost]; subst. simpl in Ces.
  assert (Forall (fun e => snd (Result.UnmarshalJSON Result.zero (fst e)) = None) es)
    as Hes.
  { apply Forall_forall. intros e He. rewrite Forall_forall in Ces.
    rewrite forallb_forall in Hty.
    apply (Result_wellTyped_ok _ _ (snd e)); [by apply Ces | by apply Hty, list_elem_of_In]. }
  split; [done|].
  unfold Response.UnmarshalJSON. rewrite (Unmarshal_parsed _ _ _ _ P).
  unfold decodeStruct. rewrite decodeMembers_app.
  destruct (response_decodeMembers_fits pre Response.response.zero Fpre Cpre)
    as [x1 E1].
  rewrite E1.
  pose proof (response_decodeMembers_frame _ _ _ _ _ E1 4%nat "results" eq_refl Hpre) as R1.
  simpl in R1. simpl decodeMembers.
  assert (Response.response.setField key (Array es) x1 =
          Stored (Response.response.mk
            (Response.response.MulticastID x1) (Response.response.Success x1)
            (Response.response.Failure x1) (Response.response.CanonicalIDs x1)
            (mk_slice (map (fun e => fst (Result.UnmarshalJSON Result.zero (fst e))) es) [])
            (Response.response.FailedRegistrationIDs x1)
            (Response.response.MessageID x1) (Response.response.Error x1)) None) as E2.
  { unfold Response.response.setField.
    rewrite (response_findField 4 "results" key eq_refl Hsel), R1.
    by rewrite (decodeSlice_fresh es Hes). }
  rewrite E2. simpl saveError.
  match goal with |- context [decodeMembers _ post ?x None] =>
    destruct (response_decodeMembers_fits post x Fpost Cpost) as [x3 E3];
    pose proof (response_decodeMembers_frame _ _ _ _ _ E3 4%nat "results" eq_refl Hpost)
      as R3
  end.
  rewrite E3. simpl in R3. eexists. split; [reflexivity|].
  destruct (Response.response.Error x3 =? "")%string; simpl; by rewrite R3.
Qed.

(** ** Where the error code comes from *)

(** The [Error] of the local struct after the members have been decoded
    is what it was before, or the string of a member whose key selects
    the field. *)
Lemma result_error_source (ms : list (string * Value)) (x x' : Result.result.t)
    (saved saved' : option error) :
  decodeMembers Result.result.setField ms x saved = Stored x' saved' ->
  Result.result.Error x' = Result.result.Error x \/
  exists key, (key, Str (Result.result.Error x')) ∈ ms /\ selects "error" key = true.
Proof.
  revert x saved. induction ms as [|[key v] ms IH]; intros x saved; simpl.
  - intros [= <- _]. by left.
  - destruct (Result.result.setField key v x) as [x1 err|] eqn:E; [|done].
    intros Hms. destruct (IH _ _ Hms) as [Heq|(k & Hin & Hk)].
    + rewrite Heq. clear Hms Heq. unfold Result.result.setField in E.
      destruct (findField Result.result.names key) as [[|[|[|j]]]|] eqn:F;
        try (destruct (decodeString v _) as [s e] eqn:D);
        injection E as <- <-; simpl; try (by left).
      apply findField_selects in F as (n & [= <-] & Hs).
      destruct v; injection D as <- <-; try (by left).
      right. exists key. split; [apply list_elem_of_here | done].
    + right. exists k. split; [by apply list_elem_of_further | done].
Qed.

Lemma response_error_source (ms : list (string * Value)) (x x' : Response.response.t)
    (saved saved' : option error) :
  decodeMembers Response.response.setField ms x saved = Stored x' saved' ->
  Response.response.Error x' = Response.response.Error x \/
  exists key, (key, Str (Response.response.Error x')) ∈ ms /\ selects "error" key = true.
Proof.
  revert x saved. induction ms as [|[key v] ms IH]; intros x saved; simpl.
  - intros [= <- _]. by left.
  - destruct (Response.response.setField key v x) as [x1 err|] eqn:E; [|done].
    intros Hms. destruct (IH _ _ Hms) as [Heq|(k & Hin & Hk)].
    + rewrite Heq. clear Hms Heq.
      destruct (decide (findField Response.response.names key = Some 7%nat)) as [F|F].
      * unfold Response.response.setField in E. rewrite F in E.
        apply findField_selects in F as (n & [= <-] & Hs).
        destruct v; injection E as <- <-; try (by left).
        right. exists key. split; [apply list_elem_of_here | done].
      * left. apply (response_setField_frame _ _ _ _ _ E 7%nat F).
    + right. exists k. split; [by apply list_elem_of_further | done].
Qed.

Lemma noErrorCode_member (ms : list (string * Value)) (key code : string) :
  noErrorCode (Object ms) = true -> (key, Str code) ∈ ms -> selects "error" key = true ->
  code = "".
Proof.
  simpl. intros Hall Hin Hsel.
  rewrite forallb_forall in Hall. apply list_elem_of_In in Hin.
  specialize (Hall _ Hin). simpl in Hall. rewrite Hsel in Hall. simpl in Hall.
  by destruct code.
Qed.

(** The error of a decoded [Result]: the receiver's when the local
    struct has no error code, the classification of the code otherwise;
    and the code is the string of a member under the key [error]. *)
Lemma Result_Error_decoded (r x : Result.t) (data : string) (v : Value) :
  parse data = Some v -> Result.UnmarshalJSON r data = (x, None) ->
  Result.Error x = Result.Error r \/
  exists ms key code, v = Object ms /\ (key, Str code) ∈ ms /\
    selects "error" key = true /\ code <> "" /\ Result.Error x = Some (classify code).
Proof.
  intros P H. apply Result_UnmarshalJSON_ok in H as (result & U & ->).
  rewrite (Unmarshal_parsed _ _ _ _ P) in U. simpl.
  destruct (Result.result.Error result =? "")%string eqn:Eq; [by left|].
  apply String.eqb_neq in Eq.
  destruct v as [| | | | |ms]; simpl in U;
    try (simplify_eq; simpl in *; congruence).
  destruct (decodeMembers _ ms _ _) as [x' saved|] eqn:D; [|done].
  injection U as -> ->.
  destruct (result_error_source _ _ _ _ _ D) as [Hz|(key & Hin & Hsel)]; [done|].
  right. by exists ms, key, (Result.result.Error result).
Qed.

Lemma Response_Error_decoded (r x : Response.t) (data : string) (v : Value) :
  parse data = Some v -> Response.UnmarshalJSON r data = (x, None) ->
  Response.Error x = Response.Error r \/
  exists ms key code, v = Object ms /\ (key, Str code) ∈ ms /\
    selects "error" key = true /\ code <> "" /\ Response.Error x = Some (classify code).
Proof.
  intros P H. apply Response_UnmarshalJSON_ok in H as (response & U & ->).
  rewrite (Unmarshal_parsed _ _ _ _ P) in U. simpl.
  destruct (Response.response.Error response =? "")%string eqn:Eq; [by left|].
  apply String.eqb_neq in Eq.
  destruct v as [| | | | |ms]; simpl in U;
    try (simplify_eq; simpl in *; congruence).
  destruct (decodeMembers _ ms _ _) as [x' saved|] eqn:D; [|done].
  injection U as -> ->.
  destruct (response_error_source _ _ _ _ _ D) as [Hz|(key & Hin & Hsel)]; [done|].
  right. by exists ms, key, (Response.response.Error response).
Qed.

(** * The claims *)

(** C1. For every error code of the table ([MissingRegistration],
    [InvalidRegistration], [NotRegistered], [InvalidPackageName],
    [MismatchSenderId], [MessageTooBig], [InvalidDataKey], [InvalidTtl],
    [Unavailable], [InternalServerError], [DeviceMessageRateExceeded],
    [TopicsMessageRateExceeded], [InvalidParameters],
    [InvalidApnsCredential]) the classification is the corresponding
    error value; for every other string it is [ErrUnknown]; and the
    classification does not make the decoding fail: once
    [json.Unmarshal] has filled the local struct without an error, both
    [UnmarshalJSON] methods return no error, whatever the code is. *)
Theorem classify_table :
  classify "MissingRegistration" = ErrMissingRegistration /\
  classify "InvalidRegistration" = ErrInvalidRegistration /\
  classify "NotRegistered" = ErrNotRegistered /\
  classify "InvalidPackageName" = ErrInvalidPackageName /\
  classify "MismatchSenderId" = ErrMismatchSenderID /\
  classify "MessageTooBig" = ErrMessageTooBig /\
  classify "InvalidDataKey" = ErrInvalidDataKey /\
  classify "InvalidTtl" = ErrInvalidTTL /\
  classify "Unavailable" = ErrUnavailable /\
  classify "InternalServerError" = ErrInternalServerError /\
  classify "DeviceMessageRateExceeded" = ErrDeviceMessageRateExceeded /\
  classify "TopicsMessageRateExceeded" = ErrTopicsMessageRateExceeded /\
  classify "InvalidParameters" = ErrInvalidParameters /\
  classify "InvalidApnsCredential" = ErrInvalidApnsCredential /\
  (forall code : string, code ∉ knownCodes -> classify code = ErrUnknown) /\
  (forall (x : Result.t) (data : string) (result : Result.result.t),
     Unmarshal Result.result.setField data Result.result.zero = (result, None) ->
     snd (Result.UnmarshalJSON x data) = None) /\
  (forall (r : Response.t) (data : string) (response : Response.response.t),
     Unmarshal Response.response.setField data Response.response.zero = (response, None) ->
     snd (Response.UnmarshalJSON r data) = None).
Proof.
  do 14 (split; [vm_compute; reflexivity|]).
  split; [apply classify_unknown|]. split.
  - intros x data result H. unfold Result.UnmarshalJSON. by rewrite H.
  - intros r data response H. unfold Response.UnmarshalJSON. by rewrite H.
Qed.

Lemma classify_table_witness :
  classify "SenderIdMismatch" = ErrUnknown /\
  snd (Result.UnmarshalJSON Result.zero (dq "{'error':'SenderIdMismatch'}")) = None.
Proof.
  destruct classify_table as (_ & _ & _ & _ & _ & _ & _ & _ & _ & _ & _ & _ & _ & _ &
                              Hunknown & Hresult & _).
  split.
  - apply Hunknown. intros H.
    repeat (apply elem_of_cons in H as [H|H]; [discriminate|]).
    by apply elem_of_nil in H.
  - eapply Hresult. vm_compute. reflexivity.
Defined.

(** C2. [Unregistered] is true exactly when the error of the [Result]
    is [ErrNotRegistered], [ErrMismatchSenderID],
    [ErrMissingRegistration] or [ErrInvalidRegistration]; on every other
    error value of the package, [ErrUnknown] included, and on a [Result]
    without an error it is false. *)
Theorem Unregistered_iff :
  (forall r : Result.t,
     Result.Unregistered r = true <->
     Result.Error r = Some ErrNotRegistered \/ Result.Error r = Some ErrMismatchSenderID \/
     Result.Error r = Some ErrMissingRegistration \/
     Result.Error r = Some ErrInvalidRegistration) /\
  Forall (fun e => forall m g : string, Result.Unregistered (Result.mk m g e) = false)
    [None; Some ErrInvalidPackageName; Some ErrMessageTooBig; Some ErrInvalidDataKey;
     Some ErrInvalidTTL; Some ErrUnavailable; Some ErrInternalServerError;
     Some ErrDeviceMessageRateExceeded; Some ErrTopicsMessageRateExceeded;
     Some ErrInvalidParameters; Some ErrUnknown; Some ErrInvalidApnsCredential].
Proof.
  split.
  - intros r. unfold Result.Unregistered.
    rewrite !orb_true_iff, !bool_decide_eq_true. tauto.
  - repeat constructor.
Qed.

(** C3. The error of the code [Unavailable] is temporary and a timeout;
    the error of the code [InternalServerError] is temporary and not a
    timeout; the error of any other code, [ErrUnknown] included, has
    neither method, so it carries neither flag. *)
Theorem retry_flags :
  Temporary (classify "Unavailable") = Some true /\
  Timeout (classify "Unavailable") = Some true /\
  Temporary (classify "InternalServerError") = Some true /\
  Timeout (classify "InternalServerError") = Some false /\
  Temporary ErrUnknown = None /\ Timeout ErrUnknown = None /\
  (forall code : string, code <> "Unavailable" -> code <> "InternalServerError" ->
     Temporary (classify code) = None /\ Timeout (classify code) = None).
Proof.
  do 6 (split; [vm_compute; reflexivity|]).
  intros code Hu Hi.
  destruct (classify code) eqn:E; simpl; try done;
    first [ apply classify_connection in E | apply classify_server in E ]; done.
Qed.

Lemma retry_flags_witness :
  Temporary (classify "MessageTooBig") = None /\ Timeout (classify "MessageTooBig") = None.
Proof.
  destruct retry_flags as (_ & _ & _ & _ & _ & _ & H).
  apply H; discriminate.
Defined.

(** C4, as the code has it.  For every payload that is an object with
    one member under the key [results], an array of N elements each of
    which is well typed for a [Result], and whose other members fit the
    fields they select, [Response.UnmarshalJSON] returns no error and
    [Results] holds N elements, in the order of the array; the i-th is
    what [Result.UnmarshalJSON] makes of the bytes of the i-th element
    on a fresh [Result], and that call returns no error. *)
Theorem results_in_order (data key : string) (pre post es : list (string * Value))
    (r : Response.t) :
  parse data = Some (Object (pre ++ (key, Array es) :: post)) ->
  selects "results" key = true ->
  hasKey "results" (pre ++ post) = false ->
  forallb (fun m => Response.fits (fst m) (snd m)) (pre ++ post) = true ->
  forallb (fun e => Result.wellTyped (snd e)) es = true ->
  exists r', Response.UnmarshalJSON r data = (r', None) /\
    length (items (Response.Results r')) = length es /\
    items (Response.Results r') =
    map (fun e => fst (Result.UnmarshalJSON Result.zero (fst e))) es /\
    Forall (fun e => snd (Result.UnmarshalJSON Result.zero (fst e)) = None) es.
Proof.
  intros P Hsel Hhas Hfit Hes.
  destruct (results_member_in_order data key pre post es r P Hsel Hhas Hfit Hes)
    as (Hok & r' & Hr & Hitems).
  exists r'. split; [done|]. split; [by rewrite Hitems, length_map|]. by split.
Qed.

Lemma results_in_order_witness :
  exists r',
    Response.UnmarshalJSON Response.zero
      (dq "{'success':1,'results':[{'message_id':'1:abc'},{'error':'NotRegistered'}],'failure':1}")
    = (r', None) /\
    length (items (Response.Results r')) = 2%nat /\
    items (Response.Results r') =
    [Result.mk "1:abc" "" None; Result.mk "" "" (Some ErrNotRegistered)] /\
    Forall (fun e => snd (Result.UnmarshalJSON Result.zero (fst e)) = None)
      [(dq "{'message_id':'1:abc'}", Object [("message_id", Str "1:abc")]);
       (dq "{'error':'NotRegistered'}", Object [("error", Str "NotRegistered")])].
Proof.
  refine (results_in_order
    (dq "{'success':1,'results':[{'message_id':'1:abc'},{'error':'NotRegistered'}],'failure':1}")
    "results" [("success", Number "1")] [("failure", Number "1")]
    [(dq "{'message_id':'1:abc'}", Object [("message_id", Str "1:abc")]);
     (dq "{'error':'NotRegistered'}", Object [("error", Str "NotRegistered")])]
    Response.zero _ _ _ _ _); vm_compute; reflexivity.
Defined.

(** The claim as it is stated fails: the results array of this payload
    is one well-formed result object, and the decoding returns an error
    because of the member [success]. *)
Lemma results_need_typed_siblings :
  parse (dq "{'results':[{}],'success':'x'}")
  = Some (Object [("results", Array [("{}", Object [])]); ("success", Str "x")]) /\
  Result.UnmarshalJSON Result.zero "{}" = (Result.zero, None) /\
  Response.UnmarshalJSON Response.zero (dq "{'results':[{}],'success':'x'}")
  = (Response.zero, Some (UnmarshalTypeError "string")).
Proof. repeat split; vm_compute; reflexivity. Qed.

Lemma Forall2_map_diag {A B : Type} (P : A -> B -> Prop) (f : A -> B) (l : list A) :
  Forall (fun a => P a (f a)) l -> Forall2 P l (map f l).
Proof. induction 1; simpl; by constructor. Qed.

(** From a decoding without an error: the elements of the one array
    under the key [results] and the other members are well typed. *)
Lemma results_member_typed (data key : string) (pre post es : list (string * Value))
    (r r' : Response.t) :
  parse data = Some (Object (pre ++ (key, Array es) :: post)) ->
  selects "results" key = true ->
  Response.UnmarshalJSON r data = (r', None) ->
  forallb (fun m => Response.fits (fst m) (snd m)) (pre ++ post) = true /\
  forallb (fun e => Result.wellTyped (snd e)) es = true.
Proof.
  intros P Hsel U. pose proof (Response_UnmarshalJSON_outcome r data _ P) as W.
  rewrite U in W. simpl in W. unfold Response.wellTyped in W. simpl in W.
  rewrite forallb_app in W. simpl in W.
  apply andb_true_iff in W as [Fpre [Fkey Fpost]%andb_true_iff].
  split; [by rewrite forallb_app, Fpre, Fpost|].
  unfold Response.fits in Fkey.
  by rewrite (response_findField 4 "results" key eq_refl Hsel) in Fkey.
Qed.

(** C5, as the code has it.  A payload without an error code (no member
    under the key [error], or only the empty string or [null] there)
    leaves the error of the receiver as it was: [nil] for a receiver
    that holds no error, as a fresh [Result] or [Response] does.  So it
    is for every [Result] in the [Results] of a decoded [Response] whose
    payload has one member under the key [results]: an element without
    an error code gives a [Result] whose error is [nil].  And an error
    of a decoded value that the receiver did not hold is the
    classification of a non-empty string that the payload carries under
    the key [error]. *)
Theorem error_unset_without_code (data : string) (v : Value) :
  parse data = Some v ->
  (forall x0 x : Result.t,
     Result.UnmarshalJSON x0 data = (x, None) ->
     (noErrorCode v = true -> Result.Error x = Result.Error x0) /\
     (Result.Error x0 = None ->
      (noErrorCode v = true -> Result.Error x = None) /\
      (forall e, Result.Error x = Some e ->
         exists ms key code, v = Object ms /\ (key, Str code) ∈ ms /\
           selects "error" key = true /\ code <> "" /\ e = classify code))) /\
  (forall r0 r : Response.t,
     Response.UnmarshalJSON r0 data = (r, None) ->
     (noErrorCode v = true -> Response.Error r = Response.Error r0) /\
     (Response.Error r0 = None ->
      (noErrorCode v = true -> Response.Error r = None) /\
      (forall e, Response.Error r = Some e ->
         exists ms key code, v = Object ms /\ (key, Str code) ∈ ms /\
           selects "error" key = true /\ code <> "" /\ e = classify code))) /\
  (forall (r0 r : Response.t) (key : string) (pre post es : list (string * Value)),
     v = Object (pre ++ (key, Array es) :: post) ->
     selects "results" key = true -> hasKey "results" (pre ++ post) = false ->
     Response.UnmarshalJSON r0 data = (r, None) ->
     Forall2 (fun e x =>
                (noErrorCode (snd e) = true -> Result.Error x = None) /\
                (forall err, Result.Error x = Some err ->
                   exists ms k code, snd e = Object ms /\ (k, Str code) ∈ ms /\
                     selects "error" k = true /\ code <> "" /\ err = classify code))
       es (items (Response.Results r))).
Proof.
  intros P. split; [|split].
  - intros x0 x H.
    destruct (Result_Error_decoded _ _ _ _ P H)
      as [Hz|(ms & key & code & -> & Hin & Hsel & Hne & He)].
    + split; [done|]. intros H0. split; [congruence|]. intros e He. congruence.
    + split; [|intros _; split].
      * intros Hno. by destruct (Hne (noErrorCode_member _ _ _ Hno Hin Hsel)).
      * intros Hno. by destruct (Hne (noErrorCode_member _ _ _ Hno Hin Hsel)).
      * intros e He'. exists ms, key, code. repeat split; try done. congruence.
  - intros r0 r H.
    destruct (Response_Error_decoded _ _ _ _ P H)
      as [Hz|(ms & key & code & -> & Hin & Hsel & Hne & He)].
    + split; [done|]. intros H0. split; [congruence|]. intros e He. congruence.
    + split; [|intros _; split].
      * intros Hno. by destruct (Hne (noErrorCode_member _ _ _ Hno Hin Hsel)).
      * intros Hno. by destruct (Hne (noErrorCode_member _ _ _ Hno Hin Hsel)).
      * intros e He'. exists ms, key, code. repeat split; try done. congruence.
  - intros r0 r key pre post es -> Hsel Hhas U.
    destruct (results_member_typed _ _ _ _ _ _ _ P Hsel U) as [Hfit Hes].
    destruct (results_member_in_order data key pre post es r0 P Hsel Hhas Hfit Hes)
      as (Hok & r' & Hr & Hitems).
    rewrite U in Hr. injection Hr as <-. rewrite Hitems.
    pose proof (parse_coherent _ _ P) as Hco.
    apply Forall_app_inv in Hco as [_ Hco].
    inversion Hco as [|? ? Ces _]; subst. simpl in Ces.
    apply Forall2_map_diag. rewrite Forall_forall in Hok, Ces |- *.
    intros e He. specialize (Hok e He). specialize (Ces e He). simpl in Hok, Ces.
    destruct (Result.UnmarshalJSON Result.zero (fst e)) as [x err] eqn:E.
    simpl in Hok. subst err. simpl.
    destruct (Result_Error_decoded _ _ _ _ Ces E)
      as [Hz|(ms & k & code & Hv & Hin & Hs & Hne & Hx)].
    + simpl in Hz. split; [done|]. intros err Herr. congruence.
    + split.
      * intros Hno. rewrite Hv in Hno.
        by destruct (Hne (noErrorCode_member _ _ _ Hno Hin Hs)).
      * intros err Herr. exists ms, k, code. repeat split; try done. congruence.
Qed.

Lemma error_unset_without_code_witness :
  Forall2 (fun e x =>
             (noErrorCode (snd e) = true -> Result.Error x = None) /\
             (forall err, Result.Error x = Some err ->
                exists ms k code, snd e = Object ms /\ (k, Str code) ∈ ms /\
                  selects "error" k = true /\ code <> "" /\ err = classify code))
    [(dq "{'message_id':'m1','error':''}", Object [("message_id", Str "m1"); ("error", Str "")]);
     (dq "{'error':'NotRegistered'}", Object [("error", Str "NotRegistered")])]
    (items (mk_slice [Result.mk "m1" "" None; Result.mk "" "" (Some ErrNotRegistered)] [])).
Proof.
  refine (proj2 (proj2 (error_unset_without_code
            (dq "{'results':[{'message_id':'m1','error':''},{'error':'NotRegistered'}]}")
            _ _))
            Response.zero
            (Response.mk 0 0 0 0
               (mk_slice [Result.mk "m1" "" None; Result.mk "" "" (Some ErrNotRegistered)] [])
               nil_slice 0 None)
            "results" [] [] _ eq_refl _ _ _);
    vm_compute; reflexivity.
Defined.

(** The claim as it is stated fails: the payload [{}] has no error code,
    and the [Result] decoded from it holds an error, the one that the
    receiver held.  So it is within the decoding of one payload into a
    fresh [Response]: the second member under the key [results] is
    decoded into the element that the first one left, and the [Result]
    of its element [{}] holds [ErrNotRegistered]. *)
Lemma stale_error_without_code :
  parse "{}" = Some (Object []) /\
  noErrorCode (Object []) = true /\
  Result.UnmarshalJSON (Result.mk "m" "g" (Some ErrNotRegistered)) "{}"
  = (Result.mk "" "" (Some ErrNotRegistered), None) /\
  parse (dq "{'results':[{'error':'NotRegistered'}],'results':[{}]}")
  = Some (Object [("results", Array [(dq "{'error':'NotRegistered'}",
                                      Object [("error", Str "NotRegistered")])]);
                  ("results", Array [("{}", Object [])])]) /\
  Response.UnmarshalJSON Response.zero
    (dq "{'results':[{'error':'NotRegistered'}],'results':[{}]}")
  = (Response.mk 0 0 0 0 (mk_slice [Result.mk "" "" (Some ErrNotRegistered)] [])
       nil_slice 0 None, None).
Proof. repeat split; vm_compute; reflexivity. Qed.

(** A receiver that already holds an error keeps it when the payload
    has no error code: the method assigns [Error] only under
    [if result.Error != ""]. *)
Lemma Result_Error_kept (r x : Result.t) (data : string) (v : Value) :
  parse data = Some v -> noErrorCode v = true ->
  Result.UnmarshalJSON r data = (x, None) -> Result.Error x = Result.Error r.
Proof.
  intros P Hno H.
  destruct (Result_Error_decoded _ _ _ _ P H)
    as [Hz|(ms & key & code & -> & Hin & Hsel & Hne & He)]; [done|].
  by destruct (Hne (noErrorCode_member _ _ _ Hno Hin Hsel)).
Qed.

Lemma Response_Error_kept (r x : Response.t) (data : string) (v : Value) :
  parse data = Some v -> noErrorCode v = true ->
  Response.UnmarshalJSON r data = (x, None) -> Response.Error x = Response.Error r.
Proof.
  intros P Hno H.
  destruct (Response_Error_decoded _ _ _ _ P H)
    as [Hz|(ms & key & code & -> & Hin & Hsel & Hne & He)]; [done|].
  by destruct (Hne (noErrorCode_member _ _ _ Hno Hin Hsel)).
Qed.

(** C6. [Response.UnmarshalJSON] and [Result.UnmarshalJSON] return an
    error only when the payload is not valid JSON, and then the error is
    a syntax error, or when some member does not fit the type of the
    field it selects, and then it is a type error; a payload that is
    valid and well typed is decoded without an error.  No rule across
    fields is checked: a payload whose success count is 5 while its
    results array has one element, and that element carries both a
    message id and an error, decodes without an error. *)
Theorem decode_error_causes :
  (forall (r : Response.t) (data : string) (err : error),
     snd (Response.UnmarshalJSON r data) = Some err ->
     (parse data = None /\ err = SyntaxError) \/
     (exists v, parse data = Some v /\ Response.wellTyped v = false /\ isTypeError err)) /\
  (forall (r : Response.t) (data : string),
     snd (Response.UnmarshalJSON r data) = None <->
     exists v, parse data = Some v /\ Response.wellTyped v = true) /\
  (forall (x : Result.t) (data : string) (err : error),
     snd (Result.UnmarshalJSON x data) = Some err ->
     (parse data = None /\ err = SyntaxError) \/
     (exists v, parse data = Some v /\ Result.wellTyped v = false /\ isTypeError err)) /\
  (forall (x : Result.t) (data : string),
     snd (Result.UnmarshalJSON x data) = None <->
     exists v, parse data = Some v /\ Result.wellTyped v = true) /\
  Response.UnmarshalJSON Response.zero
    (dq "{'success':5,'failure':0,'results':[{'message_id':'m1','error':'NotRegistered'}]}")
  = (Response.mk 0 5 0 0
       (mk_slice [Result.mk "m1" "" (Some ErrNotRegistered)] []) nil_slice 0 None,
     None).
Proof.
  split; [|split; [|split; [|split]]].
  - intros r data err H. destruct (parse data) as [v|] eqn:P.
    + right. exists v. split; [done|].
      pose proof (Response_UnmarshalJSON_outcome r data v P) as O. by rewrite H in O.
    + left. split; [done|].
      rewrite (proj1 (UnmarshalJSON_syntax r Result.zero data P)) in H. congruence.
  - intros r data. split.
    + intros H. destruct (parse data) as [v|] eqn:P.
      * exists v. split; [done|].
        pose proof (Response_UnmarshalJSON_outcome r data v P) as O. by rewrite H in O.
      * rewrite (proj1 (UnmarshalJSON_syntax r Result.zero data P)) in H. done.
    + intros (v & P & W). by apply (Response_wellTyped_ok r data v).
  - intros x data err H. destruct (parse data) as [v|] eqn:P.
    + right. exists v. split; [done|].
      pose proof (Result_UnmarshalJSON_outcome x data v P) as O. by rewrite H in O.
    + left. split; [done|].
      rewrite (proj2 (UnmarshalJSON_syntax Response.zero x data P)) in H. congruence.
  - intros x data. split.
    + intros H. destruct (parse data) as [v|] eqn:P.
      * exists v. split; [done|].
        pose proof (Result_UnmarshalJSON_outcome x data v P) as O. by rewrite H in O.
      * rewrite (proj2 (UnmarshalJSON_syntax Response.zero x data P)) in H. done.
    + intros (v & P & W). by apply (Result_wellTyped_ok x data v).
  - vm_compute. reflexivity.
Qed.

Lemma decode_error_causes_witness :
  (parse (dq "{'success':'five'}") = None /\ UnmarshalTypeError "string" = SyntaxError) \/
  (exists v, parse (dq "{'success':'five'}") = Some v /\ Response.wellTyped v = false /\
     isTypeError (UnmarshalTypeError "string")).
Proof.
  apply (proj1 decode_error_causes Response.zero (dq "{'success':'five'}")
           (UnmarshalTypeError "string")).
  vm_compute. reflexivity.
Defined.

(** C7. When [UnmarshalJSON] returns an error, the receiver is what it
    was before the call: no field of it has been assigned.  On a text
    that is not valid JSON it returns a syntax error. *)
Theorem failed_decode_leaves_receiver :
  (forall (r : Response.t) (data : string) (err : error),
     snd (Response.UnmarshalJSON r data) = Some err ->
     fst (Response.UnmarshalJSON r data) = r) /\
  (forall (x : Result.t) (data : string) (err : error),
     snd (Result.UnmarshalJSON x data) = Some err ->
     fst (Result.UnmarshalJSON x data) = x) /\
  (forall (r : Response.t) (x : Result.t) (data : string),
     parse data = None ->
     Response.UnmarshalJSON r data = (r, Some SyntaxError) /\
     Result.UnmarshalJSON x data = (x, Some SyntaxError)).
Proof.
  split; [|split].
  - intros r data err H.
    destruct (Response.UnmarshalJSON r data) as [r' e] eqn:E. simpl in *. subst e.
    by apply Response_UnmarshalJSON_err in E.
  - intros x data err H.
    destruct (Result.UnmarshalJSON x data) as [x' e] eqn:E. simpl in *. subst e.
    by apply Result_UnmarshalJSON_err in E.
  - intros r x data P.
    unfold Response.UnmarshalJSON, Result.UnmarshalJSON, Unmarshal. by rewrite P.
Qed.

Lemma failed_decode_leaves_receiver_witness :
  fst (Response.UnmarshalJSON (Response.mk 1 2 3 4 nil_slice nil_slice 5 None)
         (dq "{'multicast_id':7,'success':1,'results':[{'message_id':'m'"))
  = Response.mk 1 2 3 4 nil_slice nil_slice 5 None /\
  fst (Result.UnmarshalJSON (Result.mk "old" "" None) (dq "{'message_id':'new','error':7}"))
  = Result.mk "old" "" None.
Proof.
  split.
  - apply (proj1 failed_decode_leaves_receiver _ _ SyntaxError).
    vm_compute. reflexivity.
  - apply (proj1 (proj2 failed_decode_leaves_receiver) _ _ (UnmarshalTypeError "number")).
    vm_compute. reflexivity.
Defined.

(** C8, as the code has it.  What a decoded [Response] holds follows
    from the keys of the payload alone: a field whose key does not occur
    is left at its zero value, so a payload with keys of one group only
    leaves the fields of the other group unset.  (The decoder does not
    keep the two groups apart: see [both_groups_populated].) *)
Theorem fields_follow_keys (data : string) (ms : list (string * Value)) (r : Response.t) :
  parse data = Some (Object ms) ->
  Response.UnmarshalJSON Response.zero data = (r, None) ->
  (hasKey "multicast_id" ms = false -> Response.MulticastID r = 0%Z) /\
  (hasKey "success" ms = false -> Response.Success r = 0%Z) /\
  (hasKey "failure" ms = false -> Response.Failure r = 0%Z) /\
  (hasKey "canonical_ids" ms = false -> Response.CanonicalIDs r = 0%Z) /\
  (hasKey "results" ms = false -> Response.Results r = nil_slice) /\
  (hasKey "failed_registration_ids" ms = false ->
     Response.FailedRegistrationIDs r = nil_slice) /\
  (hasKey "message_id" ms = false -> Response.MessageID r = 0%Z) /\
  (hasKey "error" ms = false -> Response.Error r = None).
Proof.
  intros P H. apply Response_UnmarshalJSON_ok in H as (response & U & ->).
  rewrite (Unmarshal_parsed _ _ _ _ P) in U. simpl in U.
  destruct (decodeMembers _ ms _ _) as [x saved|] eqn:D; [|done].
  injection U as -> ->.
  pose proof (response_decodeMembers_frame _ _ _ _ _ D) as F.
  repeat split; intros Hk; simpl.
  - apply (F 0%nat _ eq_refl Hk).
  - apply (F 1%nat _ eq_refl Hk).
  - apply (F 2%nat _ eq_refl Hk).
  - apply (F 3%nat _ eq_refl Hk).
  - apply (F 4%nat _ eq_refl Hk).
  - apply (F 5%nat _ eq_refl Hk).
  - apply (F 6%nat _ eq_refl Hk).
  - pose proof (F 7%nat _ eq_refl Hk) as E. simpl in E. by rewrite E.
Qed.

Lemma fields_follow_keys_witness :
  Response.MessageID
    (fst (Response.UnmarshalJSON Response.zero (dq "{'multicast_id':108,'success':1}")))
  = 0%Z.
Proof.
  refine (proj1 (proj2 (proj2 (proj2 (proj2 (proj2 (proj2
    (fields_follow_keys (dq "{'multicast_id':108,'success':1}")
       [("multicast_id", Number "108"); ("success", Number "1")] _ _ _))))))) _);
    vm_compute; reflexivity.
Defined.

(** The claim as it is stated fails: this payload has a key of each
    group, and the decoded [Response] has a field of each group set. *)
Lemma both_groups_populated :
  Response.UnmarshalJSON Response.zero
    (dq "{'multicast_id':108,'success':1,'message_id':42,'error':'Unavailable'}")
  = (Response.mk 108 1 0 0 nil_slice nil_slice 42 (Some ErrUnavailable), None).
Proof. vm_compute. reflexivity. Qed.

(** C9. The topic payload with message id 42 and the error code
    [InvalidParameters] decodes without an error to a [Response] with
    message id 42, error [ErrInvalidParameters] and no results. *)
Theorem topic_payload_decoded :
  Response.UnmarshalJSON Response.zero (dq "{'message_id':42,'error':'InvalidParameters'}")
  = (Response.mk 0 0 0 0 nil_slice nil_slice 42 (Some ErrInvalidParameters), None).
Proof. vm_compute. reflexivity. Qed.

(** C10. The empty object decodes without an error to the zero
    [Response]: every number 0, [Results] and [FailedRegistrationIDs]
    [nil], no error.  And a member 0 under the key of a numeric field
    changes nothing: the payload decodes as the payload without that
    member does, where no other member has the key. *)
Theorem zero_field_as_absent :
  Response.UnmarshalJSON Response.zero (dq "{}") = (Response.zero, None) /\
  Response.zero = Response.mk 0 0 0 0 nil_slice nil_slice 0 None /\
  (forall (data1 data2 name key : string) (pre post : list (string * Value))
          (r : Response.t),
     name ∈ ["multicast_id"; "success"; "failure"; "canonical_ids"; "message_id"] ->
     selects name key = true ->
     hasKey name (pre ++ post) = false ->
     parse data1 = Some (Object (pre ++ (key, Number "0") :: post)) ->
     parse data2 = Some (Object (pre ++ post)) ->
     Response.UnmarshalJSON r data1 = Response.UnmarshalJSON r data2).
Proof.
  split; [by vm_compute|]. split; [done|].
  intros data1 data2 name key pre post r Hname Hsel [Hpre _]%hasKey_app_false P1 P2.
  unfold Response.UnmarshalJSON.
  rewrite (Unmarshal_parsed _ _ _ _ P1), (Unmarshal_parsed _ _ _ _ P2).
  unfold decodeStruct. rewrite !decodeMembers_app.
  destruct (decodeMembers _ pre _ _) as [x saved|] eqn:D; [|done].
  simpl decodeMembers.
  pose proof (response_decodeMembers_frame _ _ _ _ _ D) as F.
  assert (Response.response.setField key (Number "0") x = Stored x None) as ->.
  { unfold Response.response.setField.
    repeat (apply elem_of_cons in Hname as [->|Hname];
      [match goal with
       | |- context [findField _ key] =>
         first
           [ rewrite (response_findField 0 _ key eq_refl Hsel);
             pose proof (F 0%nat _ eq_refl Hpre) as E
           | rewrite (response_findField 1 _ key eq_refl Hsel);
             pose proof (F 1%nat _ eq_refl Hpre) as E
           | rewrite (response_findField 2 _ key eq_refl Hsel);
             pose proof (F 2%nat _ eq_refl Hpre) as E
           | rewrite (response_findField 3 _ key eq_refl Hsel);
             pose proof (F 3%nat _ eq_refl Hpre) as E
           | rewrite (response_findField 6 _ key eq_refl Hsel);
             pose proof (F 6%nat _ eq_refl Hpre) as E ]
       end;
       destruct x; simpl in *; by subst|]).
    by apply elem_of_nil in Hname. }
  by rewrite saveError_None.
Qed.

Lemma zero_field_as_absent_witness :
  Response.UnmarshalJSON Response.zero (dq "{'multicast_id':0}")
  = Response.UnmarshalJSON Response.zero (dq "{}").
Proof.
  refine (proj2 (proj2 zero_field_as_absent)
            (dq "{'multicast_id':0}") (dq "{}") "multicast_id" "multicast_id" [] []
            Response.zero _ _ _ _ _); try (vm_compute; reflexivity).
  apply list_elem_of_here.
Defined.

(** * Further properties of the code *)

(** ** The error values *)

Lemma errMap_table : errMap = list_to_map errTable.
Proof. reflexivity. Qed.

(** What [classify] returns: the value that the table pairs with the
    code, or [ErrUnknown] for a code that is not a key. *)
Lemma classify_cases (code : string) :
  ((code, classify code) ∈ errTable) \/ ((code ∉ knownCodes) /\ classify code = ErrUnknown).
Proof.
  unfold classify. destruct (errMap !! code) as [val|] eqn:E.
  - left. rewrite errMap_table in E. by apply elem_of_list_to_map_2 in E.
  - right. split; [|done]. rewrite errMap_table in E.
    by apply not_elem_of_list_to_map_2 in E.
Qed.

Lemma errTable_keys (code : string) (val : error) :
  (code, val) ∈ errTable -> code ∈ knownCodes /\ val <> ErrUnknown /\ val ∈ packageErrors.
Proof.
  intros H.
  repeat (apply elem_of_cons in H as [H|H];
          [injection H as -> ->; split; [|split]; [set_solver | done | set_solver]|]).
  by apply elem_of_nil in H.
Qed.

(** The table pairs different codes with different values. *)
Lemma errTable_inj (c1 c2 : string) (val : error) :
  (c1, val) ∈ errTable -> (c2, val) ∈ errTable -> c1 = c2.
Proof.
  intros H1 H2.
  repeat (apply elem_of_cons in H1 as [H1|H1];
          [injection H1 as -> ->;
           repeat (apply elem_of_cons in H2 as [H2|H2]; [by injection H2 as ->|]);
           by apply elem_of_nil in H2|]).
  by apply elem_of_nil in H1.
Qed.

(** X1. [ErrUnknown] marks exactly the codes that are not keys of
    [errMap]: no key is classified as [ErrUnknown], and every other
    string is. *)
Theorem unknown_iff_not_key (code : string) :
  classify code = ErrUnknown <-> code ∉ knownCodes.
Proof.
  split.
  - intros H. destruct (classify_cases code) as [Hin|[Hnot _]]; [|done].
    apply errTable_keys in Hin as (_ & Hne & _). by destruct Hne.
  - intros H. destruct (classify_cases code) as [Hin|[_ Hu]]; [|done].
    apply errTable_keys in Hin as (Hk & _). by destruct H.
Qed.

(** X2. Two codes are classified alike only when they are the same code
    or when neither is a key of [errMap]: the fourteen keys have
    fourteen different error values, none of them [ErrUnknown]. *)
Theorem classify_separates (c1 c2 : string) :
  classify c1 = classify c2 -> c1 = c2 \/ ((c1 ∉ knownCodes) /\ (c2 ∉ knownCodes)).
Proof.
  intros H.
  destruct (classify_cases c1) as [H1|[N1 U1]], (classify_cases c2) as [H2|[N2 U2]].
  - left. rewrite H in H1. by apply (errTable_inj c1 c2 (classify c2)).
  - rewrite H, U2 in H1. apply errTable_keys in H1 as (_ & Hne & _). by destruct Hne.
  - rewrite <- H, U1 in H2. apply errTable_keys in H2 as (_ & Hne & _). by destruct Hne.
  - by right.
Qed.

Lemma classify_separates_witness :
  "QuotaExceeded" = "Throttled" \/
  (("QuotaExceeded" ∉ knownCodes) /\ ("Throttled" ∉ knownCodes)).
Proof. apply (classify_separates "QuotaExceeded" "Throttled"). vm_compute. reflexivity. Defined.

(** X3. The text of an error value is the code it was classified from,
    for every key of [errMap] but [InvalidTtl], whose error reads
    [InvalidTTL]; so classifying the text of a classified error gives
    the same error again, except for [InvalidTtl], where it gives
    [ErrUnknown]. *)
Theorem error_text_round_trip :
  (forall code : string, code <> "InvalidTtl" ->
     exists text, Error_ (classify code) = Some text /\
       classify text = classify code /\ (code ∈ knownCodes -> text = code)) /\
  Error_ (classify "InvalidTtl") = Some "InvalidTTL" /\
  classify "InvalidTTL" = ErrUnknown /\
  classify "InvalidTtl" <> ErrUnknown.
Proof.
  split; [|by vm_compute].
  intros code Hne. destruct (classify_cases code) as [Hin|[Hnot Hu]].
  - exists code.
    assert (Error_ (classify code) = Some code) as Ht.
    { revert Hin. generalize (classify code). intros val Hin.
      repeat (apply elem_of_cons in Hin as [Hin|Hin];
              [injection Hin as -> ->; first [done | by destruct Hne]|]).
      by apply elem_of_nil in Hin. }
    by repeat split.
  - exists "Unknown". rewrite Hu. split; [done|]. split; [by vm_compute|].
    intros Hk. by destruct Hnot.
Qed.

Lemma error_text_round_trip_witness :
  exists text, Error_ (classify "Unavailable") = Some text /\
    classify text = classify "Unavailable" /\ ("Unavailable" ∈ knownCodes -> text = "Unavailable").
Proof. apply (proj1 error_text_round_trip). discriminate. Defined.

(** The codes of the four errors that [Unregistered] looks for. *)
Lemma classify_unregistered (code : string) :
  classify code = ErrNotRegistered \/ classify code = ErrMismatchSenderID \/
  classify code = ErrMissingRegistration \/ classify code = ErrInvalidRegistration <->
  code ∈ unregisteredCodes.
Proof.
  split.
  - intros H.
    assert (exists c, c ∈ unregisteredCodes /\ (c, classify code) ∈ errTable) as (c & Hc & Hin').
    { destruct H as [H|[H|[H|H]]]; rewrite H.
      - exists "NotRegistered". split; set_solver.
      - exists "MismatchSenderId". split; set_solver.
      - exists "MissingRegistration". split; set_solver.
      - exists "InvalidRegistration". split; set_solver. }
    destruct (classify_cases code) as [Hin|[_ Hu]].
    + by rewrite (errTable_inj code c _ Hin Hin').
    + rewrite Hu in Hin'. apply errTable_keys in Hin' as (_ & Hne & _). by destruct Hne.
  - intros H.
    repeat (apply elem_of_cons in H as [->|H]; [vm_compute; tauto|]).
    by apply elem_of_nil in H.
Qed.

(** X4. Of a classified error code, [Unregistered] is true exactly for
    the four codes [NotRegistered], [MismatchSenderId],
    [MissingRegistration] and [InvalidRegistration]. *)
Theorem Unregistered_of_code (m g code : string) :
  Result.Unregistered (Result.mk m g (Some (classify code))) = true <->
  code ∈ unregisteredCodes.
Proof.
  unfold Result.Unregistered. cbn [Result.Error].
  rewrite !orb_true_iff, !bool_decide_eq_true, <- classify_unregistered.
  split.
  - intros [[[H|H]|H]|H]; injection H as H; tauto.
  - intros [H|[H|[H|H]]]; rewrite H; tauto.
Qed.

(** X5. An error for which [Unregistered] is true is never one to retry:
    it has neither the method [Temporary] nor the method [Timeout]. *)
Theorem unregistered_not_temporary (r : Result.t) :
  Result.Unregistered r = true ->
  exists e, Result.Error r = Some e /\ Temporary e = None /\ Timeout e = None.
Proof.
  unfold Result.Unregistered. rewrite !orb_true_iff, !bool_decide_eq_true.
  intros [[[H|H]|H]|H]; rewrite H; by eexists.
Qed.

Lemma unregistered_not_temporary_witness :
  exists e, Result.Error (Result.mk "" "" (Some ErrNotRegistered)) = Some e /\
    Temporary e = None /\ Timeout e = None.
Proof. apply unregistered_not_temporary. reflexivity. Defined.

(** X6. The error values of the package are told apart by their text:
    two of them with the same text are the same value. *)
Theorem error_texts_distinct (e1 e2 : error) :
  e1 ∈ packageErrors -> e2 ∈ packageErrors -> Error_ e1 = Error_ e2 -> e1 = e2.
Proof.
  intros H1 H2 Ht.
  repeat (apply elem_of_cons in H1 as [->|H1];
          [repeat (apply elem_of_cons in H2 as [->|H2];
                   [first [reflexivity | by vm_compute in Ht]|]);
           by apply elem_of_nil in H2|]).
  by apply elem_of_nil in H1.
Qed.

Lemma error_texts_distinct_witness : classify "Unavailable" = ErrUnavailable.
Proof.
  apply (error_texts_distinct (classify "Unavailable") ErrUnavailable);
    [vm_compute; set_solver | set_solver | vm_compute; reflexivity].
Defined.

(** ** The receiver *)

(** X7. A successful decoding overwrites every field of the receiver
    but [Error]: the receiver afterwards is what decoding the same
    payload into a zero value gives, with the receiver's former [Error]
    where that has none. *)
Theorem decode_into_used_receiver (data : string) :
  (forall r : Response.t,
     snd (Response.UnmarshalJSON r data) = None ->
     let fresh := fst (Response.UnmarshalJSON Response.zero data) in
     Response.UnmarshalJSON r data =
     (Response.set_Error
        (match Response.Error fresh with Some e => Some e | None => Response.Error r end)
        fresh, None)) /\
  (forall x : Result.t,
     snd (Result.UnmarshalJSON x data) = None ->
     let fresh := fst (Result.UnmarshalJSON Result.zero data) in
     Result.UnmarshalJSON x data =
     (Result.mk (Result.MessageID fresh) (Result.RegistrationID fresh)
        (match Result.Error fresh with Some e => Some e | None => Result.Error x end),
      None)).
Proof.
  split.
  - intros r. unfold Response.UnmarshalJSON.
    destruct (Unmarshal _ data _) as [response [err|]]; [done|]. intros _.
    by destruct (Response.response.Error response =? "")%string.
  - intros x. unfold Result.UnmarshalJSON.
    destruct (Unmarshal _ data _) as [result [err|]]; [done|]. intros _.
    by destruct (Result.result.Error result =? "")%string.
Qed.

Lemma decode_into_used_receiver_witness :
  Result.UnmarshalJSON (Result.mk "m0" "g0" (Some ErrUnavailable)) (dq "{'message_id':'m1'}")
  = (Result.mk "m1" "" (Some ErrUnavailable), None).
Proof.
  apply (proj2 (decode_into_used_receiver (dq "{'message_id':'m1'}"))
           (Result.mk "m0" "g0" (Some ErrUnavailable))).
  vm_compute. reflexivity.
Defined.

(** X8. Decoding the same payload a second time into the receiver
    changes nothing: the receiver and the returned error are those of
    the first decoding. *)
Theorem decode_twice (data : string) (r : Response.t) (x : Result.t) :
  Response.UnmarshalJSON (fst (Response.UnmarshalJSON r data)) data
  = Response.UnmarshalJSON r data /\
  Result.UnmarshalJSON (fst (Result.UnmarshalJSON x data)) data
  = Result.UnmarshalJSON x data.
Proof.
  split.
  - unfold Response.UnmarshalJSON.
    destruct (Unmarshal _ data _) as [response [err|]]; [done|].
    by destruct (Response.response.Error response =? "")%string.
  - unfold Result.UnmarshalJSON.
    destruct (Unmarshal _ data _) as [result [err|]]; [done|].
    by destruct (Result.result.Error result =? "")%string.
Qed.

(** X9. A payload that is valid JSON but not an object: [null] is
    decoded without an error and sets every field of the receiver but
    [Error] to its zero value; a boolean, a number, a string or an
    array is a type error that names the kind of the value, and the
    receiver stays as it was. *)
Theorem payload_not_an_object (data : string) (v : Value) (r : Response.t) (x : Result.t) :
  parse data = Some v ->
  match v with
  | Object _ => True
  | Null =>
    Response.UnmarshalJSON r data
    = (Response.set_Error (Response.Error r) Response.zero, None) /\
    Result.UnmarshalJSON x data = (Result.mk "" "" (Result.Error x), None)
  | _ =>
    Response.UnmarshalJSON r data = (r, Some (UnmarshalTypeError (describe v))) /\
    Result.UnmarshalJSON x data = (x, Some (UnmarshalTypeError (describe v)))
  end.
Proof.
  intros P. unfold Response.UnmarshalJSON, Result.UnmarshalJSON.
  rewrite !(Unmarshal_parsed _ _ _ _ P). by destruct v.
Qed.

Lemma payload_not_an_object_witness :
  Response.UnmarshalJSON Response.zero (dq "['a']")
  = (Response.zero, Some (UnmarshalTypeError "array")) /\
  Result.UnmarshalJSON Result.zero (dq "['a']")
  = (Result.zero, Some (UnmarshalTypeError "array")).
Proof.
  apply (payload_not_an_object (dq "['a']") (Array [(dq "'a'", Str "a")])
           Response.zero Result.zero).
  vm_compute. reflexivity.
Defined.

(** ** The members of the payload *)

Lemma result_findField (i : nat) (name key : string) :
  Result.result.names !! i = Some name -> selects name key = true ->
  findField Result.result.names key = Some i.
Proof.
  intros Hi Hsel. unfold selects in Hsel. apply String.eqb_eq in Hsel.
  unfold findField.
  destruct (index (String.eqb key) Result.result.names) as [j|] eqn:E.
  - apply index_Some in E as (n & Hj & Heq). apply String.eqb_eq in Heq as <-.
    do 3 (destruct i as [|i]; [injection Hi as <-;
      do 3 (destruct j as [|j]; [by injection Hj as <-|]); done|]).
    done.
  - rewrite <- Hsel.
    do 3 (destruct i as [|i]; [by injection Hi as <-|]). done.
Qed.

Lemma selects_refl (name : string) : selects name name = true.
Proof. unfold selects. apply String.eqb_refl. Qed.

(** Two members that [setField] stores alike can stand for each other
    in a payload. *)
Lemma Unmarshal_member {T : Type} (setField : string -> Value -> T -> decoded T)
    (data1 data2 k1 k2 : string) (v1 v2 : Value) (pre post : list (string * Value)) (t : T) :
  parse data1 = Some (Object (pre ++ (k1, v1) :: post)) ->
  parse data2 = Some (Object (pre ++ (k2, v2) :: post)) ->
  (forall x saved, decodeMembers setField pre t None = Stored x saved ->
     setField k1 v1 x = setField k2 v2 x) ->
  Unmarshal setField data1 t = Unmarshal setField data2 t.
Proof.
  intros P1 P2 H. rewrite (Unmarshal_parsed _ _ _ _ P1), (Unmarshal_parsed _ _ _ _ P2).
  unfold decodeStruct. rewrite !decodeMembers_app.
  destruct (decodeMembers setField pre t None) as [x saved|] eqn:D; [|done].
  simpl decodeMembers. by rewrite (H _ _ eq_refl).
Qed.

(** A member that [setField] does not store can be left out. *)
Lemma Unmarshal_without {T : Type} (setField : string -> Value -> T -> decoded T)
    (data1 data2 key : string) (v : Value) (pre post : list (string * Value)) (t : T) :
  parse data1 = Some (Object (pre ++ (key, v) :: post)) ->
  parse data2 = Some (Object (pre ++ post)) ->
  (forall x saved, decodeMembers setField pre t None = Stored x saved ->
     setField key v x = Stored x None) ->
  Unmarshal setField data1 t = Unmarshal setField data2 t.
Proof.
  intros P1 P2 H. rewrite (Unmarshal_parsed _ _ _ _ P1), (Unmarshal_parsed _ _ _ _ P2).
  unfold decodeStruct. rewrite !decodeMembers_app.
  destruct (decodeMembers setField pre t None) as [x saved|] eqn:D; [|done].
  simpl decodeMembers. by rewrite (H _ _ eq_refl), saveError_None.
Qed.

(** X10. A member whose key is the name of no field, also up to the
    case of letters, is ignored, whatever its value: the payload
    decodes as the payload without the member does. *)
Theorem unknown_key_ignored (data1 data2 key : string) (v : Value)
    (pre post : list (string * Value)) :
  parse data1 = Some (Object (pre ++ (key, v) :: post)) ->
  parse data2 = Some (Object (pre ++ post)) ->
  (findField Response.response.names key = None ->
   forall r, Response.UnmarshalJSON r data1 = Response.UnmarshalJSON r data2) /\
  (findField Result.result.names key = None ->
   forall x, Result.UnmarshalJSON x data1 = Result.UnmarshalJSON x data2).
Proof.
  intros P1 P2. split; intros Hf r.
  - unfold Response.UnmarshalJSON.
    rewrite (Unmarshal_without _ _ _ _ _ _ _ _ P1 P2); [done|].
    intros x saved _. unfold Response.response.setField. by rewrite Hf.
  - unfold Result.UnmarshalJSON.
    rewrite (Unmarshal_without _ _ _ _ _ _ _ _ P1 P2); [done|].
    intros x saved _. unfold Result.result.setField. by rewrite Hf.
Qed.

Lemma unknown_key_ignored_witness :
  Response.UnmarshalJSON Response.zero (dq "{'success':1,'results_count':'one','failure':2}")
  = Response.UnmarshalJSON Response.zero (dq "{'success':1,'failure':2}").
Proof.
  refine (proj1 (unknown_key_ignored
                   (dq "{'success':1,'results_count':'one','failure':2}")
                   (dq "{'success':1,'failure':2}") "results_count" (Str "one")
                   [("success", Number "1")] [("failure", Number "2")] _ _) _ Response.zero);
    vm_compute; reflexivity.
Defined.

(** X11. The keys are matched without regard to the case of letters: a
    member under a key that is the name of a field up to case folding
    is decoded as the member under the name itself. *)
Theorem key_case_ignored (data1 data2 name key : string) (v : Value)
    (pre post : list (string * Value)) :
  selects name key = true ->
  parse data1 = Some (Object (pre ++ (key, v) :: post)) ->
  parse data2 = Some (Object (pre ++ (name, v) :: post)) ->
  (name ∈ Response.response.names ->
   forall r, Response.UnmarshalJSON r data1 = Response.UnmarshalJSON r data2) /\
  (name ∈ Result.result.names ->
   forall x, Result.UnmarshalJSON x data1 = Result.UnmarshalJSON x data2).
Proof.
  intros Hsel P1 P2. split; intros [i Hi]%list_elem_of_lookup_1 r.
  - unfold Response.UnmarshalJSON.
    rewrite (Unmarshal_member _ _ _ _ _ _ _ _ _ _ P1 P2); [done|].
    intros x saved _. unfold Response.response.setField.
    by rewrite (response_findField i name key Hi Hsel),
               (response_findField i name name Hi (selects_refl name)).
  - unfold Result.UnmarshalJSON.
    rewrite (Unmarshal_member _ _ _ _ _ _ _ _ _ _ P1 P2); [done|].
    intros x saved _. unfold Result.result.setField.
    by rewrite (result_findField i name key Hi Hsel),
               (result_findField i name name Hi (selects_refl name)).
Qed.

Lemma key_case_ignored_witness :
  Result.UnmarshalJSON Result.zero (dq "{'Message_ID':'m1','ERROR':'Unavailable'}")
  = Result.UnmarshalJSON Result.zero (dq "{'Message_ID':'m1','error':'Unavailable'}").
Proof.
  refine (proj2 (key_case_ignored
                   (dq "{'Message_ID':'m1','ERROR':'Unavailable'}")
                   (dq "{'Message_ID':'m1','error':'Unavailable'}") "error" "ERROR"
                   (Str "Unavailable") [("Message_ID", Str "m1")] [] _ _ _) _ Result.zero);
    [vm_compute; reflexivity .. | set_solver].
Defined.

(** X12. A member [null] is decoded as no member: it leaves a number or
    a string as it is, and makes a slice [nil], which the slice still is
    where no earlier member has its key. *)
Theorem null_member_ignored (data1 data2 key : string) (pre post : list (string * Value)) :
  parse data1 = Some (Object (pre ++ (key, Null) :: post)) ->
  parse data2 = Some (Object (pre ++ post)) ->
  (forall x, Result.UnmarshalJSON x data1 = Result.UnmarshalJSON x data2) /\
  ((selects "results" key = true -> hasKey "results" pre = false) ->
   (selects "failed_registration_ids" key = true ->
    hasKey "failed_registration_ids" pre = false) ->
   forall r, Response.UnmarshalJSON r data1 = Response.UnmarshalJSON r data2).
Proof.
  intros P1 P2. split.
  - intros r. unfold Result.UnmarshalJSON.
    rewrite (Unmarshal_without _ _ _ _ _ _ _ _ P1 P2); [done|].
    intros x saved _. unfold Result.result.setField.
    destruct (findField Result.result.names key) as [[|[|[|j]]]|]; by destruct x.
  - intros Hres Hids r. unfold Response.UnmarshalJSON.
    rewrite (Unmarshal_without _ _ _ _ _ _ _ _ P1 P2); [done|].
    intros x saved D. unfold Response.response.setField.
    destruct (findField Response.response.names key) as [[|[|[|[|[|[|[|[|j]]]]]]]]|] eqn:F;
      try by destruct x.
    + apply findField_selects in F as (n & [= <-] & Hs).
      pose proof (response_decodeMembers_frame _ _ _ _ _ D 4%nat _ eq_refl (Hres Hs)) as E.
      destruct x. simpl in *. by subst.
    + apply findField_selects in F as (n & [= <-] & Hs).
      pose proof (response_decodeMembers_frame _ _ _ _ _ D 5%nat _ eq_refl (Hids Hs)) as E.
      destruct x. simpl in *. by subst.
Qed.

Lemma null_member_ignored_witness :
  Response.UnmarshalJSON Response.zero (dq "{'success':3,'results':null,'success':null}")
  = Response.UnmarshalJSON Response.zero (dq "{'success':3,'results':null}").
Proof.
  refine (proj2 (null_member_ignored
                   (dq "{'success':3,'results':null,'success':null}")
                   (dq "{'success':3,'results':null}") "success"
                   [("success", Number "3"); ("results", Null)] [] _ _) _ _ Response.zero);
    first [by vm_compute | vm_compute; reflexivity].
Defined.

(** ** What a decoded value holds *)

Lemma classify_packageError (code : string) : classify code ∈ packageErrors.
Proof.
  destruct (classify_cases code) as [Hin|[_ ->]].
  - by apply errTable_keys in Hin as (_ & _ & H).
  - set_solver.
Qed.

Lemma Result_UnmarshalJSON_packageError (x x' : Result.t) (data : string)
    (err : option error) :
  packageError (Result.Error x) -> Result.UnmarshalJSON x data = (x', err) ->
  packageError (Result.Error x').
Proof.
  intros H U. destruct err as [err|].
  - by rewrite (Result_UnmarshalJSON_err _ _ _ _ U).
  - apply Result_UnmarshalJSON_ok in U as (result & _ & ->). simpl.
    destruct (Result.result.Error result =? "")%string; [done|].
    apply classify_packageError.
Qed.

(** What holds of the backing array of a slice and is kept by the
    element decoder holds of the decoded slice and of what is left
    behind it. *)
Lemma decodeElems_invariant {A : Type} (P : A -> Prop) (zero : A)
    (elem : string * Value -> A -> decoded A) :
  P zero ->
  (forall e old a saved, P old -> elem e old = Stored a saved -> P a) ->
  forall es old done saved its sp saved',
    Forall P old -> Forall P done ->
    decodeElems zero elem es old done saved = Stored (its, sp) saved' ->
    Forall P its /\ Forall P sp.
Proof.
  intros Hz He. induction es as [|e es IH]; intros old done saved its sp saved' Ho Hd; simpl.
  - by intros [= <- <- _].
  - destruct (elem e (hd zero old)) as [a err|] eqn:E; [|done].
    apply IH.
    + destruct Ho; [constructor | done].
    + apply Forall_app. split; [done|]. constructor; [|constructor].
      apply (He e (hd zero old) a err); [|done]. by destruct Ho.
Qed.

Lemma decodeSlice_invariant {A : Type} (P : A -> Prop) (zero : A)
    (elem : string * Value -> A -> decoded A) :
  P zero ->
  (forall e old a saved, P old -> elem e old = Stored a saved -> P a) ->
  forall v old s saved,
    Forall P (backing old) -> decodeSlice zero elem v old = Stored s saved ->
    Forall P (backing s).
Proof.
  intros Hz He v old s saved Ho. unfold decodeSlice.
  destruct v as [| | | |es|]; try by intros [= <- _].
  destruct es as [|e es]; [by intros [= <- _]|].
  destruct (decodeElems zero elem (e :: es) (backing old) [] None) as [[its sp] sv|] eqn:D;
    [|done].
  intros [= <- _]. simpl. apply Forall_app.
  by apply (decodeElems_invariant P zero elem Hz He _ _ _ _ _ _ _ Ho (Forall_nil_2 P) D).
Qed.

Lemma decodeMembers_invariant {T : Type} (I : T -> Prop)
    (setField : string -> Value -> T -> decoded T) :
  (forall key v x x' err, I x -> setField key v x = Stored x' err -> I x') ->
  forall ms x saved x' saved',
    I x -> decodeMembers setField ms x saved = Stored x' saved' -> I x'.
Proof.
  intros Hs. induction ms as [|[key v] ms IH]; intros x saved x' saved' Hx; simpl.
  - by intros [= <- _].
  - destruct (setField key v x) as [x1 err|] eqn:E; [|done].
    apply IH. by apply (Hs key v x x1 err).
Qed.

Lemma Unmarshal_invariant {T : Type} (I : T -> Prop)
    (setField : string -> Value -> T -> decoded T) :
  (forall key v x x' err, I x -> setField key v x = Stored x' err -> I x') ->
  forall data t, I t -> I (fst (Unmarshal setField data t)).
Proof.
  intros Hs data t Ht. unfold Unmarshal. destruct (parse data) as [v|]; [|done].
  destruct (decodeStruct setField v t) as [t' saved|] eqn:D; [|done]. simpl.
  destruct v; simpl in D; try by injection D as <- _.
  by apply (decodeMembers_invariant I setField Hs _ _ _ _ _ Ht D).
Qed.

Lemma response_results_packageError (data : string) :
  Forall (fun x => packageError (Result.Error x))
    (backing (Response.response.Results
       (fst (Unmarshal Response.response.setField data Response.response.zero)))).
Proof.
  apply (Unmarshal_invariant
           (fun x => Forall (fun x => packageError (Result.Error x))
                       (backing (Response.response.Results x)))); [|constructor].
  intros key v x x' err Hx. unfold Response.response.setField.
  destruct (findField Response.response.names key) as [[|[|[|[|[|[|[|[|j]]]]]]]]|];
    try match goal with
    | |- context [decodeInt ?b v ?old] => destruct (decodeInt b v old)
    | |- context [decodeString v ?old] => destruct (decodeString v old)
    | |- context [decodeSlice _ stringElem v ?old] =>
      destruct (decodeSlice EmptyString stringElem v old)
    end; try by intros [= <- _].
  destruct (decodeSlice Result.zero Result.elem v (Response.response.Results x))
    as [rs sv|] eqn:D; [|done].
  intros [= <- _]. simpl.
  apply (decodeSlice_invariant (fun x => packageError (Result.Error x))
           Result.zero Result.elem) in D; try done.
  intros e old a saved Ho. unfold Result.elem.
  destruct (Result.UnmarshalJSON old (fst e)) as [a' [err'|]] eqn:U; [done|].
  intros [= <- _]. by apply (Result_UnmarshalJSON_packageError _ _ _ _ Ho U).
Qed.

(** X13. After a successful decoding the [Error] of the [Response] and
    of every [Result] in it is [nil] or one of the fifteen error values
    of the package, never an error of the decoder, where that holds of
    the receiver's [Error]. *)
Theorem errors_are_package_errors (r r' : Response.t) (data : string) :
  packageError (Response.Error r) ->
  Response.UnmarshalJSON r data = (r', None) ->
  packageError (Response.Error r') /\
  Forall (fun x => packageError (Result.Error x)) (items (Response.Results r')).
Proof.
  intros Hr U. pose proof (response_results_packageError data) as Hb.
  apply Response_UnmarshalJSON_ok in U as (response & E & ->). rewrite E in Hb.
  simpl in *. split.
  - destruct (Response.response.Error response =? "")%string; [done|].
    apply classify_packageError.
  - destruct (Response.response.Results response); [constructor|].
    simpl in Hb. by apply Forall_app in Hb as [? _].
Qed.

Lemma errors_are_package_errors_witness :
  packageError (Some (classify "QuotaExceeded")) /\
  Forall (fun x => packageError (Result.Error x))
    [Result.mk "" "" (Some (classify "Unavailable")); Result.mk "m" "" None].
Proof.
  apply (errors_are_package_errors Response.zero
           (Response.mk 0 0 0 0
              (mk_slice [Result.mk "" "" (Some (classify "Unavailable"));
                         Result.mk "m" "" None] [])
              nil_slice 0 (Some (classify "QuotaExceeded")))
           (dq "{'results':[{'error':'Unavailable'},{'message_id':'m'}],'error':'QuotaExceeded'}"));
    [exact I | vm_compute; reflexivity].
Defined.

Lemma ParseInt_range (lit : string) (bitSize n : Z) :
  ParseInt lit bitSize = Some n -> inInt bitSize n.
Proof.
  assert (forall m, (if ((- 2 ^ (bitSize - 1) <=? m) && (m <? 2 ^ (bitSize - 1)))%Z
                     then Some m else None) = Some n -> inInt bitSize n) as R.
  { intros m. destruct (_ && _) eqn:B; [|done]. intros [= <-].
    apply andb_true_iff in B as [?%Z.leb_le ?%Z.ltb_lt]. by split. }
  unfold ParseInt. destruct lit as [|c t]; [done|].
  destruct (c =? "-")%char.
  - destruct t as [|c' t']; [done|]. destruct (digits 0 (String c' t')); [apply R | done].
  - destruct (digits 0 (String c t)); [apply R | done].
Qed.

Lemma decodeInt_range (bitSize : Z) (v : Value) (old : Z) :
  inInt bitSize old -> inInt bitSize (fst (decodeInt bitSize v old)).
Proof.
  intros Ho. destruct v as [| |lit| | |]; try done. simpl.
  destruct (ParseInt lit bitSize) as [n|] eqn:E; [|done]. by apply ParseInt_range in E.
Qed.

Lemma response_numbers_inInt (data : string) :
  let x := fst (Unmarshal Response.response.setField data Response.response.zero) in
  inInt 64 (Response.response.MulticastID x) /\
  inInt IntSize (Response.response.Success x) /\
  inInt IntSize (Response.response.Failure x) /\
  inInt IntSize (Response.response.CanonicalIDs x) /\
  inInt 64 (Response.response.MessageID x).
Proof.
  apply (Unmarshal_invariant
           (fun x => inInt 64 (Response.response.MulticastID x) /\
                     inInt IntSize (Response.response.Success x) /\
                     inInt IntSize (Response.response.Failure x) /\
                     inInt IntSize (Response.response.CanonicalIDs x) /\
                     inInt 64 (Response.response.MessageID x))).
  - intros key v x x' err (H0 & H1 & H2 & H3 & H6). unfold Response.response.setField.
    destruct (findField Response.response.names key) as [[|[|[|[|[|[|[|[|j]]]]]]]]|];
      try match goal with
      | |- context [decodeInt ?b v ?old] =>
        pose proof (decodeInt_range b v old) as R; destruct (decodeInt b v old)
      | |- context [decodeString v ?old] => destruct (decodeString v old)
      | |- context [decodeSlice ?z ?e v ?old] => destruct (decodeSlice z e v old)
      end; try done; intros [= <- _]; simpl in *; do 4 (split; [auto|]); auto.
  - by repeat split.
Qed.

(** X14. The numbers of a decoded [Response] are in the range of their
    Go types: [MulticastID] and [MessageID] of [int64], and [Success],
    [Failure] and [CanonicalIDs] of [int]; a number outside is a type
    error and stores nothing. *)
Theorem numbers_in_range (r r' : Response.t) (data : string) :
  Response.UnmarshalJSON r data = (r', None) ->
  inInt 64 (Response.MulticastID r') /\
  inInt IntSize (Response.Success r') /\
  inInt IntSize (Response.Failure r') /\
  inInt IntSize (Response.CanonicalIDs r') /\
  inInt 64 (Response.MessageID r').
Proof.
  intros U. pose proof (response_numbers_inInt data) as H.
  apply Response_UnmarshalJSON_ok in U as (response & E & ->). by rewrite E in H.
Qed.

Lemma numbers_in_range_witness :
  inInt 64 9223372036854775807 /\ inInt IntSize (-9223372036854775808) /\
  inInt IntSize 0 /\ inInt IntSize 0 /\ inInt 64 0.
Proof.
  apply (numbers_in_range Response.zero
           (Response.mk 9223372036854775807 (-9223372036854775808) 0 0 nil_slice nil_slice 0
              None)
           (dq "{'multicast_id':9223372036854775807,'success':-9223372036854775808}")).
  vm_compute. reflexivity.
Defined.

(** ** The member that a field is decoded from *)

Lemma decodeMembers_None {T : Type} (setField : string -> Value -> T -> decoded T)
    (ms : list (string * Value)) (x x' : T) (saved : option error) :
  decodeMembers setField ms x saved = Stored x' None -> saved = None.
Proof.
  revert x saved. induction ms as [|[key v] ms IH]; intros x saved; simpl.
  - by intros [= _ ->].
  - destruct (setField key v x) as [x1 err|]; [|done].
    intros H%IH. by destruct saved.
Qed.

(** In a decoding without an error, a member is stored without an
    error, and the members behind it are decoded into what it gave. *)
Lemma Unmarshal_last_member {T : Type} (setField : string -> Value -> T -> decoded T)
    (data key : string) (v : Value) (pre post : list (string * Value)) (t t' : T) :
  parse data = Some (Object (pre ++ (key, v) :: post)) ->
  Unmarshal setField data t = (t', None) ->
  exists x1 x2, setField key v x1 = Stored x2 None /\
    decodeMembers setField post x2 None = Stored t' None.
Proof.
  intros P. rewrite (Unmarshal_parsed _ _ _ _ P). unfold decodeStruct.
  rewrite decodeMembers_app.
  destruct (decodeMembers setField pre t None) as [x1 s1|]; [|done]. simpl decodeMembers.
  destruct (setField key v x1) as [x2 err|] eqn:E; [|done].
  destruct (decodeMembers setField post x2 (saveError s1 err)) as [x3 s3|] eqn:D; [|done].
  intros [= -> ->]. pose proof (decodeMembers_None _ _ _ _ _ D) as S.
  destruct s1; [done|]. simpl in S. subst err. simpl in D. by exists x1, x2.
Qed.

Lemma result_setField_frame (key : string) (v : Value) (x x' : Result.result.t)
    (err : option error) :
  Result.result.setField key v x = Stored x' err ->
  forall i, findField Result.result.names key <> Some i -> resultSameField i x' x.
Proof.
  unfold Result.result.setField.
  destruct (findField Result.result.names key) as [[|[|[|j]]]|];
    try match goal with
    | |- context [decodeString v ?old] => destruct (decodeString v old)
    end;
    intros [= <- <-] i Hi;
    do 3 (destruct i as [|i]; [done|]); done.
Qed.

Lemma result_decodeMembers_frame (ms : list (string * Value))
    (x x' : Result.result.t) (saved saved' : option error) :
  decodeMembers Result.result.setField ms x saved = Stored x' saved' ->
  forall i name, Result.result.names !! i = Some name -> hasKey name ms = false ->
  resultSameField i x' x.
Proof.
  revert x saved. induction ms as [|[key v] ms IH]; intros x saved; simpl.
  - intros [= <- _] i name _ _. by do 3 (destruct i as [|i]; [done|]).
  - destruct (Result.result.setField key v x) as [x1 err|] eqn:E; [|done].
    intros Hms i name Hi [Hsel Hhas]%orb_false_iff.
    pose proof (IH _ _ Hms i name Hi Hhas) as H1.
    assert (findField Result.result.names key <> Some i) as Hne.
    { intros Hf. apply findField_selects in Hf as (n & Hn & Hs).
      rewrite Hi in Hn. injection Hn as <-. simpl in Hsel. congruence. }
    pose proof (result_setField_frame _ _ _ _ _ E i Hne) as H2.
    do 3 (destruct i as [|i]; [simpl in *; congruence|]). done.
Qed.

Lemma result_error_from_last_member (data key s : string)
    (pre post : list (string * Value)) (x x' : Result.t) :
  parse data = Some (Object (pre ++ (key, Str s) :: post)) ->
  Result.UnmarshalJSON x data = (x', None) ->
  selects "error" key = true -> hasKey "error" post = false ->
  Result.Error x' = if (s =? "")%string then Result.Error x else Some (classify s).
Proof.
  intros P U Hsel Hpost. apply Result_UnmarshalJSON_ok in U as (result & E & ->).
  destruct (Unmarshal_last_member _ _ _ _ _ _ _ _ P E) as (x1 & x2 & S & D).
  pose proof (result_decodeMembers_frame _ _ _ _ _ D 2%nat _ eq_refl Hpost) as F2.
  unfold Result.result.setField in S. simpl.
  rewrite (result_findField 2 _ key eq_refl Hsel) in S. injection S as <-.
  simpl in F2. by rewrite F2.
Qed.

(** X15. A field of a [Result] holds the string of the last member
    whose key selects it: [message_id] and [registration_id] as they
    are, [error] classified, and an empty [error] string leaves the
    receiver's [Error]. *)
Theorem result_fields_from_last_member (data key s : string)
    (pre post : list (string * Value)) (x x' : Result.t) :
  parse data = Some (Object (pre ++ (key, Str s) :: post)) ->
  Result.UnmarshalJSON x data = (x', None) ->
  (selects "message_id" key = true -> hasKey "message_id" post = false ->
   Result.MessageID x' = s) /\
  (selects "registration_id" key = true -> hasKey "registration_id" post = false ->
   Result.RegistrationID x' = s) /\
  (selects "error" key = true -> hasKey "error" post = false ->
   Result.Error x' = if (s =? "")%string then Result.Error x else Some (classify s)).
Proof.
  intros P U. split; [|split]; [| |by apply result_error_from_last_member with data pre].
  all: apply Result_UnmarshalJSON_ok in U as (result & E & ->).
  all: destruct (Unmarshal_last_member _ _ _ _ _ _ _ _ P E) as (x1 & x2 & S & D).
  all: pose proof (result_decodeMembers_frame _ _ _ _ _ D) as F.
  all: unfold Result.result.setField in S; simpl; intros Hsel Hpost.
  - rewrite (result_findField 0 _ key eq_refl Hsel) in S. injection S as <-.
    apply (F 0%nat _ eq_refl Hpost).
  - rewrite (result_findField 1 _ key eq_refl Hsel) in S. injection S as <-.
    apply (F 1%nat _ eq_refl Hpost).
Qed.

Lemma result_fields_from_last_member_witness :
  Result.Error (Result.mk "m" "" (Some ErrNotRegistered)) = Some (classify "NotRegistered").
Proof.
  refine (proj2 (proj2 (result_fields_from_last_member
            (dq "{'error':'Unavailable','Error':'NotRegistered','message_id':'m'}")
            "Error" "NotRegistered" [("error", Str "Unavailable")] [("message_id", Str "m")]
            Result.zero (Result.mk "m" "" (Some ErrNotRegistered)) _ _)) _ _);
    vm_compute; reflexivity.
Defined.

(** X16. From the payload to [Unregistered]: a [Result] decoded into a
    receiver without an [Error] is unregistered exactly when the string
    of the last [error] member of the payload is one of the four codes
    [NotRegistered], [MismatchSenderId], [MissingRegistration] and
    [InvalidRegistration]. *)
Theorem unregistered_from_payload (data key s : string)
    (pre post : list (string * Value)) (x x' : Result.t) :
  parse data = Some (Object (pre ++ (key, Str s) :: post)) ->
  selects "error" key = true -> hasKey "error" post = false ->
  Result.Error x = None ->
  Result.UnmarshalJSON x data = (x', None) ->
  Result.Unregistered x' = true <-> s ∈ unregisteredCodes.
Proof.
  intros P Hsel Hpost Hx U.
  pose proof (result_error_from_last_member _ _ _ _ _ _ _ P U Hsel Hpost) as E.
  destruct (s =? "")%string eqn:S.
  - apply String.eqb_eq in S as ->. rewrite Hx in E.
    unfold Result.Unregistered. rewrite E. split; [done|]. intros H.
    repeat (apply elem_of_cons in H as [H|H]; [done|]). by apply elem_of_nil in H.
  - unfold Result.Unregistered. rewrite E.
    rewrite !orb_true_iff, !bool_decide_eq_true, <- classify_unregistered.
    split.
    + intros [[[H|H]|H]|H]; injection H as H; tauto.
    + intros [H|[H|[H|H]]]; rewrite H; tauto.
Qed.

Lemma unregistered_from_payload_witness :
  Result.Unregistered (Result.mk "" "g" (Some ErrMismatchSenderID)) = true <->
  "MismatchSenderId" ∈ unregisteredCodes.
Proof.
  apply (unregistered_from_payload
           (dq "{'error':'MismatchSenderId','registration_id':'g'}") "error"
           "MismatchSenderId" [] [("registration_id", Str "g")] Result.zero
           (Result.mk "" "g" (Some ErrMismatchSenderID)));
    vm_compute; reflexivity.
Defined.

Lemma decodeInt_stored (bitSize : Z) (lit : string) (old n : Z) :
  decodeInt bitSize (Number lit) old = (n, None) -> ParseInt lit bitSize = Some n.
Proof. simpl. destruct (ParseInt lit bitSize); [by intros [= <-] | done]. Qed.

Lemma response_error_from_last_member (data key s : string)
    (pre post : list (string * Value)) (r r' : Response.t) :
  parse data = Some (Object (pre ++ (key, Str s) :: post)) ->
  Response.UnmarshalJSON r data = (r', None) ->
  selects "error" key = true -> hasKey "error" post = false ->
  Response.Error r' = if (s =? "")%string then Response.Error r else Some (classify s).
Proof.
  intros P U Hsel Hpost. apply Response_UnmarshalJSON_ok in U as (response & E & ->).
  destruct (Unmarshal_last_member _ _ _ _ _ _ _ _ P E) as (x1 & x2 & S & D).
  pose proof (response_decodeMembers_frame _ _ _ _ _ D 7%nat _ eq_refl Hpost) as F7.
  unfold Response.response.setField in S. simpl.
  rewrite (response_findField 7 _ key eq_refl Hsel) in S. injection S as <-.
  simpl in F7. by rewrite F7.
Qed.

(** X17. A field of a [Response] holds the value of the last member
    whose key selects it: a number field the value of the literal, which
    is an integer in the range of the field, and [Error] the classified
    string, where an empty string leaves the receiver's [Error]. *)
Theorem response_fields_from_last_member (data key : string) (v : Value)
    (pre post : list (string * Value)) (r r' : Response.t) :
  parse data = Some (Object (pre ++ (key, v) :: post)) ->
  Response.UnmarshalJSON r data = (r', None) ->
  (forall lit, v = Number lit ->
     (selects "multicast_id" key = true -> hasKey "multicast_id" post = false ->
      ParseInt lit 64 = Some (Response.MulticastID r')) /\
     (selects "success" key = true -> hasKey "success" post = false ->
      ParseInt lit IntSize = Some (Response.Success r')) /\
     (selects "failure" key = true -> hasKey "failure" post = false ->
      ParseInt lit IntSize = Some (Response.Failure r')) /\
     (selects "canonical_ids" key = true -> hasKey "canonical_ids" post = false ->
      ParseInt lit IntSize = Some (Response.CanonicalIDs r')) /\
     (selects "message_id" key = true -> hasKey "message_id" post = false ->
      ParseInt lit 64 = Some (Response.MessageID r'))) /\
  (forall s, v = Str s -> selects "error" key = true -> hasKey "error" post = false ->
     Response.Error r' = if (s =? "")%string then Response.Error r else Some (classify s)).
Proof.
  intros P U. split; [|by intros s ->; apply response_error_from_last_member with data pre].
  apply Response_UnmarshalJSON_ok in U as (response & E & ->).
  destruct (Unmarshal_last_member _ _ _ _ _ _ _ _ P E) as (x1 & x2 & S & D).
  pose proof (response_decodeMembers_frame _ _ _ _ _ D) as F.
  unfold Response.response.setField in S. simpl.
  intros lit ->; repeat split; intros Hsel Hpost.
  - rewrite (response_findField 0 _ key eq_refl Hsel) in S.
    destruct (decodeInt 64 (Number lit) _) as [n err] eqn:I. injection S as <- ->.
    apply decodeInt_stored in I. by rewrite (F 0%nat _ eq_refl Hpost).
  - rewrite (response_findField 1 _ key eq_refl Hsel) in S.
    destruct (decodeInt IntSize (Number lit) _) as [n err] eqn:I. injection S as <- ->.
    apply decodeInt_stored in I. by rewrite (F 1%nat _ eq_refl Hpost).
  - rewrite (response_findField 2 _ key eq_refl Hsel) in S.
    destruct (decodeInt IntSize (Number lit) _) as [n err] eqn:I. injection S as <- ->.
    apply decodeInt_stored in I. by rewrite (F 2%nat _ eq_refl Hpost).
  - rewrite (response_findField 3 _ key eq_refl Hsel) in S.
    destruct (decodeInt IntSize (Number lit) _) as [n err] eqn:I. injection S as <- ->.
    apply decodeInt_stored in I. by rewrite (F 3%nat _ eq_refl Hpost).
  - rewrite (response_findField 6 _ key eq_refl Hsel) in S.
    destruct (decodeInt 64 (Number lit) _) as [n err] eqn:I. injection S as <- ->.
    apply decodeInt_stored in I. by rewrite (F 6%nat _ eq_refl Hpost).
Qed.

Lemma response_fields_from_last_member_witness :
  ParseInt "-12" IntSize
  = Some (Response.Success (Response.mk 0 (-12) 1 0 nil_slice nil_slice 0 None)).
Proof.
  refine (proj1 (proj2 (proj1 (response_fields_from_last_member
            (dq "{'success':4,'Success':-12,'failure':1}") "Success" (Number "-12")
            [("success", Number "4")] [("failure", Number "1")]
            Response.zero (Response.mk 0 (-12) 1 0 nil_slice nil_slice 0 None) _ _)
            "-12" eq_refl)) _ _);
    vm_compute; reflexivity.
Defined.

Lemma Temporary_classify (code : string) :
  (Temporary (classify code) = Some true <-> code ∈ ["Unavailable"; "InternalServerError"]) /\
  (Timeout (classify code) = Some true <-> code = "Unavailable").
Proof.
  destruct (classify_cases code) as [Hin|[Hnot ->]].
  - revert Hin. generalize (classify code). intros val Hin.
    repeat (apply elem_of_cons in Hin as [Hin|Hin];
            [injection Hin as -> ->; split; (split; intros H;
               [first [by vm_compute in H | by repeat constructor]
               |first [reflexivity
                      |discriminate
                      |repeat (apply elem_of_cons in H as [H|H]; [discriminate|]);
                       by apply elem_of_nil in H]])|]).
    by apply elem_of_nil in Hin.
  - split; (split; [done|]); intros H; destruct Hnot.
    + repeat (apply elem_of_cons in H as [->|H]; [by repeat constructor|]).
      by apply elem_of_nil in H.
    + subst code. by repeat constructor.
Qed.

(** X18. From the payload to the retry methods: the [Error] of a
    [Response] decoded from a payload whose last [error] member is a
    string that is not empty has the method [Temporary] returning true
    exactly for the codes [Unavailable] and [InternalServerError], and
    the method [Timeout] returning true exactly for [Unavailable]. *)
Theorem retry_from_payload (data key s : string) (pre post : list (string * Value))
    (r r' : Response.t) :
  parse data = Some (Object (pre ++ (key, Str s) :: post)) ->
  selects "error" key = true -> hasKey "error" post = false -> s <> "" ->
  Response.UnmarshalJSON r data = (r', None) ->
  exists e, Response.Error r' = Some e /\
    (Temporary e = Some true <-> s ∈ ["Unavailable"; "InternalServerError"]) /\
    (Timeout e = Some true <-> s = "Unavailable").
Proof.
  intros P Hsel Hpost Hs U.
  pose proof (response_error_from_last_member _ _ _ _ _ _ _ P U Hsel Hpost) as E.
  apply String.eqb_neq in Hs. rewrite Hs in E.
  exists (classify s). split; [done|]. apply Temporary_classify.
Qed.

Lemma retry_from_payload_witness :
  exists e,
    Response.Error (Response.mk 0 0 0 0 nil_slice nil_slice 0 (Some ErrInternalServerError))
    = Some e /\
    (Temporary e = Some true <->
     "InternalServerError" ∈ ["Unavailable"; "InternalServerError"]) /\
    (Timeout e = Some true <-> "InternalServerError" = "Unavailable").
Proof.
  apply (retry_from_payload (dq "{'error':'InternalServerError'}") "error"
           "InternalServerError" [] [] Response.zero
           (Response.mk 0 0 0 0 nil_slice nil_slice 0 (Some ErrInternalServerError)));
    first [discriminate | vm_compute; reflexivity].
Defined.

(** ** The failed registration ids *)

Lemma decodeElems_strings (es : list (string * Value)) (done : list string)
    (saved : option error) :
  forallb (fun e => fitsString (snd e)) es = true ->
  decodeElems EmptyString stringElem es [] done saved =
  Stored ((done ++ map (fun e => fst (decodeString (snd e) "")) es)%list, []) saved.
Proof.
  revert done saved. induction es as [|e es IH]; intros done saved; simpl.
  - by rewrite app_nil_r.
  - intros [He Hes]%andb_true_iff. unfold stringElem at 1. simpl.
    destruct (snd e); try done; simpl; rewrite (IH _ _ Hes), saveError_None;
      by rewrite <- app_assoc.
Qed.

(** X19. [FailedRegistrationIDs] holds one string for each element of
    the array under [failed_registration_ids], in the order of the
    array: the string of the element, and the empty string for a
    [null]. *)
Theorem failed_ids_in_order (data key : string) (pre post es : list (string * Value))
    (r : Response.t) :
  parse data = Some (Object (pre ++ (key, Array es) :: post)) ->
  selects "failed_registration_ids" key = true ->
  hasKey "failed_registration_ids" (pre ++ post) = false ->
  forallb (fun m => Response.fits (fst m) (snd m)) (pre ++ post) = true ->
  forallb (fun e => fitsString (snd e)) es = true ->
  exists r', Response.UnmarshalJSON r data = (r', None) /\
    items (Response.FailedRegistrationIDs r') =
    map (fun e => match snd e with Str s => s | _ => EmptyString end) es.
Proof.
  intros P Hsel [Hpre Hpost]%hasKey_app_false [Fpre Fpost]%forallb_app_true Hty.
  pose proof (parse_coherent _ _ P) as Hco.
  apply Forall_app_inv in Hco as [Cpre Hco].
  inversion Hco as [|? ? Ces Cpost]; subst.
  unfold Response.UnmarshalJSON. rewrite (Unmarshal_parsed _ _ _ _ P).
  unfold decodeStruct. rewrite decodeMembers_app.
  destruct (response_decodeMembers_fits pre Response.response.zero Fpre Cpre)
    as [x1 E1].
  rewrite E1.
  pose proof (response_decodeMembers_frame _ _ _ _ _ E1 5%nat _ eq_refl Hpre) as R1.
  simpl in R1. simpl decodeMembers.
  assert (Response.response.setField key (Array es) x1 =
          Stored (Response.response.mk
            (Response.response.MulticastID x1) (Response.response.Success x1)
            (Response.response.Failure x1) (Response.response.CanonicalIDs x1)
            (Response.response.Results x1)
            (mk_slice (map (fun e => fst (decodeString (snd e) "")) es) [])
            (Response.response.MessageID x1) (Response.response.Error x1)) None) as E2.
  { unfold Response.response.setField.
    rewrite (response_findField 5 _ key eq_refl Hsel), R1.
    destruct es as [|e es]; [done|].
    unfold decodeSlice. simpl backing. by rewrite (decodeElems_strings _ _ _ Hty). }
  rewrite E2. simpl saveError.
  match goal with |- context [decodeMembers _ post ?x None] =>
    destruct (response_decodeMembers_fits post x Fpost Cpost) as [x3 E3];
    pose proof (response_decodeMembers_frame _ _ _ _ _ E3 5%nat _ eq_refl Hpost) as R3
  end.
  rewrite E3. simpl in R3. eexists. split; [reflexivity|].
  assert (items (Response.response.FailedRegistrationIDs x3) =
          map (fun e => match snd e with Str s => s | _ => EmptyString end) es) as <-.
  { rewrite R3. simpl. apply map_ext_in. intros e He.
    rewrite forallb_forall in Hty. specialize (Hty e He). by destruct (snd e). }
  by destruct (Response.response.Error x3 =? "")%string.
Qed.

Lemma failed_ids_in_order_witness :
  exists r',
    Response.UnmarshalJSON Response.zero
      (dq "{'failure':2,'failed_registration_ids':['a',null,'b'],'message_id':7}")
    = (r', None) /\
    items (Response.FailedRegistrationIDs r') = ["a"; ""; "b"].
Proof.
  apply (failed_ids_in_order
           (dq "{'failure':2,'failed_registration_ids':['a',null,'b'],'message_id':7}")
           "failed_registration_ids" [("failure", Number "2")] [("message_id", Number "7")]
           [(dq "'a'", Str "a"); ("null", Null); (dq "'b'", Str "b")] Response.zero);
    vm_compute; reflexivity.
Defined.
